(** * singularity-mpi: the configuration parser and the batch runner

    A shallow embedding of
    - [internal/pkg/configparser/configparser.go]: the detection of the MPI
      implementation and version from a download location, and [Parse];
    - the [main] package: [getListExperiments], [runExperiment] and [run].

    Go strings are byte sequences and are modelled by [string]; Go [int]
    values are modelled by [Z] (no index computed here can leave the 64-bit
    range: they are bounded by the length of a string plus 8).  A run-time
    panic of the Go program (a slice expression out of range) is an explicit
    result of the model, and so is the termination of the process by
    [log.Fatalf]. *)

From Stdlib Require Import ZArith String Ascii List Lia Permutation.
From stdpp Require Import gmap strings list.

Local Open Scope string_scope.
Local Open Scope Z_scope.

(** ** The Go [strings] package, as far as the parser uses it *)

Module strings.

(** [strings.Index(s, substr)], scanning from offset [i]: the index of the
    first instance of [substr] in [s], or [-1]. *)
Fixpoint indexFrom (i : Z) (s substr : string) : Z :=
  if String.prefix substr s then i
  else match s with
       | EmptyString => -1
       | String _ s' => indexFrom (i + 1) s' substr
       end.

Definition Index (s substr : string) : Z := indexFrom 0 s substr.

(** [strings.Contains(s, substr)] is [Index(s, substr) >= 0]. *)
Definition Contains (s substr : string) : bool := 0 <=? Index s substr.

Definition len (s : string) : Z := Z.of_nat (String.length s).

(** The slice expression [s[lo:hi]]: it panics (here [None]) unless
    [0 <= lo <= hi <= len(s)]. *)
Definition slice (s : string) (lo hi : Z) : option string :=
  if (0 <=? lo) && (lo <=? hi) && (hi <=? len s)
  then Some (String.substring (Z.to_nat lo) (Z.to_nat (hi - lo)) s)
  else None.

End strings.

(** ** Package [kv]: only the entry type is used *)

Module kv.
Record KV := { Key : string; Value : string }.
End kv.

(** ** Package [configparser] *)

Module configparser.

Record Config := {
  filename : string;
  MPIImplem : string;
  MpiMap : gmap string string
}.

(** The three detectors return [Some v] for the Go return value [v] and
    [None] when the slice expression panics. *)
Definition detectOpenMPIVersion (line : string) : option string :=
  if strings.Contains line "openmpi-" then
    if strings.Contains line ".tar" then
      let endVersion := strings.Index line ".tar" in
      let startVersion := strings.Index line "openmpi-" + 8 in
      if negb (startVersion =? -1) && negb (endVersion =? -1)
      then strings.slice line startVersion endVersion
      else Some ""
    else Some ""
  else Some "".

Definition detectMPICHVersion (line : string) : option string :=
  if strings.Contains line "mpich-" then
    if strings.Contains line ".tar" then
      let endVersion := strings.Index line ".tar" in
      let startVersion := strings.Index line "mpich-" + 6 in
      if negb (startVersion =? -1) && negb (endVersion =? -1)
      then strings.slice line startVersion endVersion
      else Some ""
    else Some ""
  else Some "".

Definition detectIntelMPIVersion (line : string) : option string :=
  if strings.Contains line "l_mpi_" then
    if strings.Contains line ".tar" then
      let endVersion := strings.Index line ".tar" in
      let startVersion := strings.Index line "l_mpi_" in
      if negb (startVersion =? -1) && negb (endVersion =? -1)
      then strings.slice line startVersion endVersion
      else Some ""
    else Some ""
  else Some "".

(** [detectMpiImplem]: the pair (implementation, version); [("", "")] is
    the "not detected" answer; [None] is a panic of one of the detectors
    that were called. *)
Definition detectMpiImplem (line : string) : option (string * string) :=
  ompiVer ← detectOpenMPIVersion line;
  if negb (String.eqb ompiVer "") then Some ("openmpi", ompiVer)
  else
    mpichVer ← detectMPICHVersion line;
    if negb (String.eqb mpichVer "") then Some ("mpich", mpichVer)
    else
      intelVer ← detectIntelMPIVersion line;
      if negb (String.eqb intelVer "") then Some ("intel", intelVer)
      else Some ("", "").

(** The errors [Parse] returns ([fmt.Errorf] with three formats). *)
Inductive Error :=
| ErrLoad (file err : string)          (* "failed to parse %s: %s" *)
| ErrDetect (value : string)           (* "cannot detect the MPI implementation from %s" *)
| ErrConflict (have got : string).     (* "Detected two implementations of MPI (%s and %s)" *)

(** What a call of [Parse] ends in: [(config, nil)], [(nil, err)], or a
    panic. *)
Inductive Outcome :=
| Ok (config : Config)
| Err (e : Error)
| Panic.

(** The body of [for _, kv := range kvs] in [Parse], from the state
    [config] on. *)
Fixpoint parseEntries (kvs : list kv.KV) (config : Config) : Outcome :=
  match kvs with
  | [] => Ok config
  | kv :: kvs' =>
      match detectMpiImplem (kv.Value kv) with
      | None => Panic
      | Some (implem, version) =>
          if String.eqb implem "" || String.eqb version ""
          then Err (ErrDetect (kv.Value kv))
          else if String.eqb (MPIImplem config) ""
          then parseEntries kvs'
                 {| filename := filename config;
                    MPIImplem := implem;
                    MpiMap := <[version := kv.Value kv]> (MpiMap config) |}
          else if negb (String.eqb (MPIImplem config) implem)
          then Err (ErrConflict (MPIImplem config) implem)
          else parseEntries kvs'
                 {| filename := filename config;
                    MPIImplem := MPIImplem config;
                    MpiMap := <[version := kv.Value kv]> (MpiMap config) |}
      end
  end.

Section Parse.
(** [kv.LoadKeyValueConfig] belongs to package [kv], which is not modelled:
    it is a variable, returning the entries in file order or the text of an
    error. *)
Variable LoadKeyValueConfig : string -> list kv.KV + string.

Definition Parse (file : string) : Outcome :=
  let config := {| filename := file; MPIImplem := ""; MpiMap := ∅ |} in
  match LoadKeyValueConfig file with
  | inr err => Err (ErrLoad file err)
  | inl kvs => parseEntries kvs config
  end.
End Parse.

End configparser.

(** ** The packages [main] imports, as far as [main] uses them

    These packages are not modelled beyond their types: the records have
    the fields that the [main] package reads and writes. *)

Module mpi.
(** The type of [HostMPI] and [ContainerMPI]. *)
Record Config := { ID : string; Version : string; URL : string }.
Definition zero : Config := {| ID := ""; Version := ""; URL := "" |}.
End mpi.

Module exp.
Record Config := { HostMPI : mpi.Config; ContainerMPI : mpi.Config }.
End exp.

Module results.
Record Result := {
  HostMPI : mpi.Config;
  ContainerMPI : mpi.Config;
  Pass : bool;
  Note : string
}.
(** The zero value of [var newRes results.Result]. *)
Definition zero : Result :=
  {| HostMPI := mpi.zero; ContainerMPI := mpi.zero; Pass := false; Note := "" |}.
End results.

Module syexec.
(** [Err] is [None] for a nil error, [Some text] otherwise. *)
Record Result := { Err : option string }.
End syexec.

Module sys.
Record Config := { OutputFile : string; Nrun : Z }.
End sys.

Module sy.
Record MPIToolConfig := { BuildPrivilege : bool }.
End sy.

(** ** Package [main] *)

Module main.

(** *** [getListExperiments] *)

Definition newExperiment (config : configparser.Config)
    (host container : string * string) : exp.Config :=
  {| exp.HostMPI :=
       {| mpi.Version := host.1; mpi.URL := host.2;
          mpi.ID := configparser.MPIImplem config |};
     exp.ContainerMPI :=
       {| mpi.Version := container.1; mpi.URL := container.2;
          mpi.ID := configparser.MPIImplem config |} |}.

Section getListExperiments.
(** Go leaves the iteration order of [range] over a map unspecified, and two
    [range] statements over the same map may differ.  [rangeOrder n m] is
    the order in which the [n]-th [range] statement executed by
    [getListExperiments] visits [m]: statement [0] is the outer loop,
    statement [S k] the inner loop of the outer loop's iteration [k]. *)
Variable rangeOrder : nat -> gmap string string -> list (string * string).

(** [for mpi2, mpi2url := range config.MpiMap { ... append ... }] *)
Fixpoint innerLoop (config : configparser.Config) (host : string * string)
    (todo : list (string * string)) (experiments : list exp.Config)
    : list exp.Config :=
  match todo with
  | [] => experiments
  | container :: todo' =>
      innerLoop config host todo'
        (experiments ++ [newExperiment config host container])
  end.

(** [for mpi1, mpi1url := range config.MpiMap { ... }], in its iteration
    number [k]. *)
Fixpoint outerLoop (config : configparser.Config) (k : nat)
    (todo : list (string * string)) (experiments : list exp.Config)
    : list exp.Config :=
  match todo with
  | [] => experiments
  | host :: todo' =>
      outerLoop config (S k) todo'
        (innerLoop config host
           (rangeOrder (S k) (configparser.MpiMap config)) experiments)
  end.

Definition getListExperiments (config : configparser.Config) : list exp.Config :=
  outerLoop config 0%nat (rangeOrder 0%nat (configparser.MpiMap config)) [].

End getListExperiments.

(** *** The process state and its monad

    [World] is the state of everything outside the program: the experiment
    runner [exp.Run] and the results file.  [written] records, in order, the
    strings that [f.WriteString] wrote without error since the state
    [written := []]. *)

Record State (World : Type) := { world : World; written : list string }.
Arguments world {World} _.
Arguments written {World} _.

(** The reasons for which [run] ends the process with [log.Fatalf]. *)
Inductive FatalMsg :=
| FatalInvalidParameters                 (* "invalid parameter(s)" *)
| FatalOpen (file : string)              (* "impossible to open result file %s" *)
| FatalExperiment (err : string)         (* "failure during the execution of experiment: %s" *)
| FatalWrite (err : string)              (* "failed to write result: %s" *)
| FatalSync (err : string).              (* "failed to sync log file: %s" *)

(** A computation ends normally with a value ([Done]) or in [log.Fatalf]
    ([Fatal]); both carry the state reached. *)
Inductive Result (World A : Type) :=
| Done (a : A) (s : State World)
| Fatal (m : FatalMsg) (s : State World).
Arguments Done {World A} a s.
Arguments Fatal {World A} m s.

Definition M (World A : Type) : Type := State World -> Result World A.

Definition ret {World A} (a : A) : M World A := fun s => Done a s.

Definition bind {World A B} (m : M World A) (k : A -> M World B) : M World B :=
  fun s => match m s with
           | Done a s' => k a s'
           | Fatal msg s' => Fatal msg s'
           end.

Definition fatal {World A} (msg : FatalMsg) : M World A := fun s => Fatal msg s.

(** An operation of the outside world that writes nothing to the file. *)
Definition call {World A} (op : World -> A * World) : M World A :=
  fun s => let (a, w) := op (world s) in
           Done a {| world := w; written := written s |}.

Notation "x <- m ;; k" := (bind m (fun x => k))
  (at level 100, m at next level, right associativity).

(** [err != nil] *)
Definition notNil (err : option string) : bool :=
  match err with Some _ => true | None => false end.

(** The text of a non-nil error ([%s] of a nil error is not reached). *)
Definition errText (err : option string) : string :=
  match err with Some t => t | None => "" end.

Definition TAB : string := String "009"%char EmptyString.
Definition NL : string := String "010"%char EmptyString.

(** The variables of one turn of [for _, e := range experiments], with
    [newResults] of the enclosing function. *)
Record Locals := {
  success : bool;
  failure : bool;
  newRes : results.Result;
  err : option string;
  newResults : list results.Result
}.

Section Run.
Context {World : Type}.

(** [exp.Run], [util.OpenResultsFile] (is the handle non-nil?) and the two
    methods of the file handle used by [run] act on the outside world.
    [exp.Run] is given pointers to the two configurations; it is taken to
    leave [sysCfg.Nrun] as it is. *)
Variable expRun : exp.Config -> sys.Config -> sy.MPIToolConfig ->
                  World -> (bool * results.Result * syexec.Result) * World.
Variable OpenResultsFile : string -> World -> bool * World.
Variable WriteString : string -> World -> option string * World.
Variable Sync : World -> option string * World.

(** [f.WriteString(line)]: the error, and [line] appended when there is
    none. *)
Definition fWriteString (line : string) : M World (option string) :=
  fun s => let (e, w) := WriteString line (world s) in
           Done e {| world := w;
                     written := if notNil e then written s
                                else (written s ++ [line])%list |}.

(** [runExperiment].  In the tuple assignment
    [expRes.Pass, expRes, execRes = exp.Run(...)] the operands are assigned
    from left to right: [expRes.Pass] first, then the whole of [expRes]. *)
Definition runExperiment (e : exp.Config) (sysCfg : sys.Config)
    (syConfig : sy.MPIToolConfig) (w : World)
    : (results.Result * option string) * World :=
  let expRes0 :=
    {| results.HostMPI := exp.HostMPI e;
       results.ContainerMPI := exp.ContainerMPI e;
       results.Pass := false; results.Note := "" |} in
  let '(pass, res, execRes, w') := expRun e sysCfg syConfig w in
  let expRes1 :=
    {| results.HostMPI := results.HostMPI expRes0;
       results.ContainerMPI := results.ContainerMPI expRes0;
       results.Pass := pass; results.Note := results.Note expRes0 |} in
  let expRes := (fun _ : results.Result => res) expRes1 in
  if notNil (syexec.Err execRes)
  then (expRes,
        Some ("failure during the execution of the experiment: "
              ++ errText (syexec.Err execRes)), w')
  else (expRes, None, w').

(** The body of [for i = 0; i < sysCfg.Nrun; i++]. *)
Definition iteration (e : exp.Config) (sysCfg : sys.Config)
    (syConfig : sy.MPIToolConfig) (l : Locals) : M World Locals :=
  r <- call (runExperiment e sysCfg syConfig) ;;
  let newRes := r.1 in
  let err := r.2 in
  if notNil err then fatal (FatalExperiment (errText err))
  else
    let newResults := (newResults l ++ [newRes])%list in
    let success1 := if notNil err then false else success l in
    let failure1 := if notNil err then false else failure l in
    let success2 := if negb (results.Pass newRes) then false else success1 in
    ret {| success := success2; failure := failure1; newRes := newRes;
           err := err; newResults := newResults |}.

(** The loop [for i = 0; i < sysCfg.Nrun; i++], with [n] turns left. *)
Fixpoint iterations (n : nat) (e : exp.Config) (sysCfg : sys.Config)
    (syConfig : sy.MPIToolConfig) (l : Locals) : M World Locals :=
  match n with
  | O => ret l
  | S n' =>
      l' <- iteration e sysCfg syConfig l ;;
      iterations n' e sysCfg syConfig l'
  end.

(** [if failure { ... } else if !success { ... } else { ... }] *)
Definition record (e : exp.Config) (l : Locals) : M World unit :=
  let host := mpi.Version (exp.HostMPI e) in
  let container := mpi.Version (exp.ContainerMPI e) in
  if failure l then
    err <- fWriteString (host ++ TAB ++ container ++ TAB ++ "ERROR" ++ TAB
                         ++ results.Note (newRes l) ++ NL) ;;
    if notNil err then fatal (FatalWrite (errText err)) else ret tt
  else if negb (success l) then
    err <- fWriteString (host ++ TAB ++ container ++ TAB ++ "FAIL" ++ TAB
                         ++ results.Note (newRes l) ++ NL) ;;
    if notNil err then fatal (FatalWrite (errText err))
    else
      err <- call Sync ;;
      if notNil err then fatal (FatalSync (errText err)) else ret tt
  else
    err <- fWriteString (host ++ TAB ++ container ++ TAB ++ "PASS" ++ TAB
                         ++ results.Note (newRes l) ++ NL) ;;
    if notNil err then fatal (FatalWrite (errText err))
    else
      err <- call Sync ;;
      if notNil err then fatal (FatalSync (errText err)) else ret tt.

(** One turn of [for _, e := range experiments]: the loop [i] runs
    [sysCfg.Nrun] times when that is positive, and not at all otherwise. *)
Definition experiment (e : exp.Config) (sysCfg : sys.Config)
    (syConfig : sy.MPIToolConfig) (newResults : list results.Result)
    : M World Locals :=
  l <- iterations (Z.to_nat (sys.Nrun sysCfg)) e sysCfg syConfig
         {| success := true; failure := false; newRes := results.zero;
            err := None; newResults := newResults |} ;;
  _ <- record e l ;;
  ret l.

Fixpoint experimentsLoop (experiments : list exp.Config) (sysCfg : sys.Config)
    (syConfig : sy.MPIToolConfig) (newResults : list results.Result)
    : M World (list results.Result) :=
  match experiments with
  | [] => ret newResults
  | e :: experiments' =>
      l <- experiment e sysCfg syConfig newResults ;;
      experimentsLoop experiments' sysCfg syConfig (main.newResults l)
  end.

(** [run]; [sysCfg] is a pointer, [None] when nil.  The deferred [f.Close]
    affects nothing observed here. *)
Definition run (experiments : list exp.Config) (sysCfg : option sys.Config)
    (syConfig : sy.MPIToolConfig) : M World (list results.Result) :=
  match sysCfg with
  | None => fatal FatalInvalidParameters
  | Some cfg =>
      if String.eqb (sys.OutputFile cfg) "" then fatal FatalInvalidParameters
      else
        f <- call (OpenResultsFile (sys.OutputFile cfg)) ;;
        if negb f then fatal (FatalOpen (sys.OutputFile cfg))
        else experimentsLoop experiments cfg syConfig []
  end.

End Run.

End main.

(** ** Vocabulary of the specification: detection

    [detects line implem version]: the detector answers with a named
    implementation; [undetected line]: it answers "not detected";
    [versionOf line]: the version it answers with. *)

Module detector.

Definition detects (line implem version : string) : Prop :=
  configparser.detectMpiImplem line = Some (implem, version) /\ implem <> "".

Definition undetected (line : string) : Prop :=
  configparser.detectMpiImplem line = Some ("", "").

Definition versionOf (line : string) : string :=
  match configparser.detectMpiImplem line with
  | Some (_, version) => version
  | None => ""
  end.

(** [sep] occurs in [s] at offset [n]; and its first occurrence is there. *)
Definition occursAt (s sep : string) (n : nat) : Prop :=
  exists a b, s = a ++ sep ++ b /\ String.length a = n.

Definition firstAt (s sep : string) (n : nat) : Prop :=
  occursAt s sep n /\ forall m, occursAt s sep m -> (n <= m)%nat.

(** The common shape of the three detectors, which differ in the marker
    and in the number of bytes skipped from the start of the marker. *)
Definition detectVersion (marker : string) (skip : Z) (line : string)
    : option string :=
  if strings.Contains line marker then
    if strings.Contains line ".tar" then
      let endVersion := strings.Index line ".tar" in
      let startVersion := strings.Index line marker + skip in
      if negb (startVersion =? -1) && negb (endVersion =? -1)
      then strings.slice line startVersion endVersion
      else Some ""
    else Some ""
  else Some "".

(** The version map after the entries [kvs], each stored under its version
    in turn, from the map [m] on. *)
Definition stored (kvs : list kv.KV) (m : gmap string string) : gmap string string :=
  fold_left (fun m kv => <[versionOf (kv.Value kv) := kv.Value kv]> m) kvs m.

End detector.

(** ** Vocabulary of the specification: the results file

    The records of the results file, and what it means for the runner and
    the file to behave in a given way; these are the terms in which the
    theorems below are stated. *)

Module store.

Inductive Status := PASS | FAIL | ERROR.

Definition statusText (s : Status) : string :=
  match s with PASS => "PASS" | FAIL => "FAIL" | ERROR => "ERROR" end.

Record ResultRecord := {
  hostVersion : string;
  containerVersion : string;
  status : Status;
  note : string
}.

(** A record as a line of the results file: four fields separated by tabs. *)
Definition line (r : ResultRecord) : string :=
  hostVersion r ++ main.TAB ++ containerVersion r ++ main.TAB
  ++ statusText (status r) ++ main.TAB ++ note r ++ main.NL.

(** The record of experiment [e] with the given verdict and note. *)
Definition recordOf (e : exp.Config) (s : Status) (n : string) : ResultRecord :=
  {| hostVersion := mpi.Version (exp.HostMPI e);
     containerVersion := mpi.Version (exp.ContainerMPI e);
     status := s; note := n |}.

(** A record whose status is PASS or FAIL and whose versions are those of
    one of [es]. *)
Definition passOrFailOf (es : list exp.Config) (r : ResultRecord) : Prop :=
  (status r = PASS \/ status r = FAIL)
  /\ exists e, In e es
       /\ hostVersion r = mpi.Version (exp.HostMPI e)
       /\ containerVersion r = mpi.Version (exp.ContainerMPI e).

(** The state in which a computation ends, normally or not. *)
Definition final {World A} (r : main.Result World A) : main.State World :=
  match r with main.Done _ s => s | main.Fatal _ s => s end.

Section Outside.
Context {World : Type}.
Variable expRun : exp.Config -> sys.Config -> sy.MPIToolConfig ->
                  World -> (bool * results.Result * syexec.Result) * World.
Variable WriteString : string -> World -> option string * World.
Variable Sync : World -> option string * World.

(** What [n] successive calls of [runExperiment] for [e] return from the
    world [w] on, whatever they return, and the world they leave. *)
Fixpoint attempts (n : nat) (e : exp.Config) (sysCfg : sys.Config)
    (syConfig : sy.MPIToolConfig) (w : World)
    : list (results.Result * option string) * World :=
  match n with
  | O => ([], w)
  | S n' =>
      let (r, w1) := main.runExperiment expRun e sysCfg syConfig w in
      let (rs, w2) := attempts n' e sysCfg syConfig w1 in
      (r :: rs, w2)
  end.

(** The world reached from [w] when each of [lines] is written and then
    synced without error; [None] when one of these operations fails. *)
Fixpoint appendSynced (lines : list string) (w : World) : option World :=
  match lines with
  | [] => Some w
  | l :: lines' =>
      match WriteString l w with
      | (None, w1) =>
          match Sync w1 with
          | (None, w2) => appendSynced lines' w2
          | (Some _, _) => None
          end
      | (Some _, _) => None
      end
  end.

End Outside.

End store.

(** ** A scripted outside world

    The runner answers from a script and remembers the experiments it was
    called with; the results file can always be opened, written and synced.
    It is the concrete world at which the theorems are instantiated. *)

Module scripted.

Record World := {
  script : list (bool * results.Result * syexec.Result);
  ran : list exp.Config
}.

Definition passing (n : string) : bool * results.Result * syexec.Result :=
  (true,
   {| results.HostMPI := mpi.zero; results.ContainerMPI := mpi.zero;
      results.Pass := true; results.Note := n |},
   {| syexec.Err := None |}).

Definition failing (n : string) : bool * results.Result * syexec.Result :=
  (false,
   {| results.HostMPI := mpi.zero; results.ContainerMPI := mpi.zero;
      results.Pass := false; results.Note := n |},
   {| syexec.Err := None |}).

Definition erroring (n err : string) : bool * results.Result * syexec.Result :=
  (false,
   {| results.HostMPI := mpi.zero; results.ContainerMPI := mpi.zero;
      results.Pass := false; results.Note := n |},
   {| syexec.Err := Some err |}).

Definition expRun (e : exp.Config) (_ : sys.Config) (_ : sy.MPIToolConfig)
    (w : World) : (bool * results.Result * syexec.Result) * World :=
  match script w with
  | [] => (passing "", {| script := []; ran := ran w ++ [e] |})
  | o :: os => (o, {| script := os; ran := ran w ++ [e] |})
  end.

Definition OpenResultsFile (_ : string) (w : World) : bool * World := (true, w).
Definition WriteString (_ : string) (w : World) : option string * World := (None, w).
Definition Sync (w : World) : option string * World := (None, w).

Definition start (s : list (bool * results.Result * syexec.Result))
    : main.State World :=
  {| main.world := {| script := s; ran := [] |}; main.written := [] |}.

Definition run := main.run expRun OpenResultsFile WriteString Sync.

Definition openmpi (version : string) : mpi.Config :=
  {| mpi.ID := "openmpi"; mpi.Version := version;
     mpi.URL := "https://download.open-mpi.org/openmpi-" ++ version ++ ".tar.bz2" |}.

Definition pair (host container : string) : exp.Config :=
  {| exp.HostMPI := openmpi host; exp.ContainerMPI := openmpi container |}.

Definition e11 : exp.Config := pair "3.0.4" "3.0.4".
Definition e12 : exp.Config := pair "3.0.4" "3.1.0".

Definition sysCfg (n : Z) : sys.Config :=
  {| sys.OutputFile := "results.txt"; sys.Nrun := n |}.

Definition syConfig : sy.MPIToolConfig := {| sy.BuildPrivilege := true |}.

End scripted.

(** ** Sample configuration entries *)

Module sample.

Definition ompi304 : kv.KV :=
  {| kv.Key := "3.0.4";
     kv.Value := "https://download.open-mpi.org/release/open-mpi/v3.0/openmpi-3.0.4.tar.bz2" |}.

Definition ompi304mirror : kv.KV :=
  {| kv.Key := "3.0.4-mirror";
     kv.Value := "https://mirror.example.org/openmpi-3.0.4.tar.gz" |}.

Definition ompi310 : kv.KV :=
  {| kv.Key := "3.1.0";
     kv.Value := "https://download.open-mpi.org/release/open-mpi/v3.1/openmpi-3.1.0.tar.bz2" |}.

Definition mpich33 : kv.KV :=
  {| kv.Key := "3.3";
     kv.Value := "http://www.mpich.org/static/downloads/3.3/mpich-3.3.tar.gz" |}.

Definition junk : kv.KV := {| kv.Key := "other"; kv.Value := "junk" |}.

(** A loader that returns the given entries for every file. *)
Definition loading (kvs : list kv.KV) (_ : string) : list kv.KV + string := inl kvs.

End sample.

(** ** A sample configuration and an iteration order of its map *)

Module matrix.

Definition twoVersions : configparser.Config :=
  {| configparser.filename := "etc/openmpi.conf";
     configparser.MPIImplem := "openmpi";
     configparser.MpiMap :=
       <["3.1.0" := kv.Value sample.ompi310]>
         (<["3.0.4" := kv.Value sample.ompi304]> ∅) |}.

(** Even-numbered [range] statements visit the map in one order, the
    odd-numbered ones in the opposite order. *)
Definition alternating (n : nat) (m : gmap string string) : list (string * string) :=
  if Nat.even n then map_to_list m else reverse (map_to_list m).

(** The host and the container of an experiment have the same version. *)
Definition diagonal (e : exp.Config) : Prop :=
  mpi.Version (exp.HostMPI e) = mpi.Version (exp.ContainerMPI e).

#[global] Instance diagonal_dec e : Decision (diagonal e).
Proof. unfold diagonal. apply _. Defined.

End matrix.

(** ** Vocabulary for whole files and whole batches *)

Module entries.

(** The versions the detector gives for the entries, in file order. *)
Definition versions (kvs : list kv.KV) : list string :=
  map (fun kv => detector.versionOf (kv.Value kv)) kvs.

(** Every entry is detected, as the one implementation [implem]. *)
Definition allDetect (implem : string) (kvs : list kv.KV) : Prop :=
  forall kv, In kv kvs ->
    exists version, detector.detects (kv.Value kv) implem version.

End entries.

Module batch.

(** The identity of an experiment and of a record: the two versions. *)
Definition identityOf (e : exp.Config) : string * string :=
  (mpi.Version (exp.HostMPI e), mpi.Version (exp.ContainerMPI e)).

Definition identity (r : store.ResultRecord) : string * string :=
  (store.hostVersion r, store.containerVersion r).

(** The record of an experiment whose iterations returned [new]: PASS when
    all of them pass, FAIL otherwise, with the note of the last one. *)
Definition verdictOf (e : exp.Config) (new : list results.Result)
    : store.ResultRecord :=
  store.recordOf e
    (if forallb results.Pass new then store.PASS else store.FAIL)
    (results.Note (List.last new results.zero)).

End batch.

(** ** An outside world with a failing disk

    The runner always passes and counts its calls; the file takes
    [goodWrites] writes and [goodSyncs] syncs, and fails from then on. *)

Module flaky.

Record World := { goodWrites : nat; goodSyncs : nat; calls : nat }.

Definition expRun (_ : exp.Config) (_ : sys.Config) (_ : sy.MPIToolConfig)
    (w : World) : (bool * results.Result * syexec.Result) * World :=
  (scripted.passing "ok",
   {| goodWrites := goodWrites w; goodSyncs := goodSyncs w; calls := S (calls w) |}).

Definition OpenResultsFile (_ : string) (w : World) : bool * World := (true, w).

Definition WriteString (_ : string) (w : World) : option string * World :=
  match goodWrites w with
  | O => (Some "no space left on device", w)
  | S n => (None, {| goodWrites := n; goodSyncs := goodSyncs w; calls := calls w |})
  end.

Definition Sync (w : World) : option string * World :=
  match goodSyncs w with
  | O => (Some "input/output error", w)
  | S n => (None, {| goodWrites := goodWrites w; goodSyncs := n; calls := calls w |})
  end.

Definition start (writes syncs : nat) : main.State World :=
  {| main.world := {| goodWrites := writes; goodSyncs := syncs; calls := O |};
     main.written := [] |}.

End flaky.

(** ** A runner that returns the opposite flag

    [flipped.expRun] answers as [scripted.expRun] does, except for the
    boolean it returns first. *)

Module flipped.

Definition expRun (e : exp.Config) (sysCfg : sys.Config) (syConfig : sy.MPIToolConfig)
    (w : scripted.World)
    : (bool * results.Result * syexec.Result) * scripted.World :=
  let '(pass, res, execRes, w') := scripted.expRun e sysCfg syConfig w in
  (negb pass, res, execRes, w').

(** Answers of [exp.Run] in which the boolean returned first and the [Pass]
    field of the result returned second disagree. *)
Definition flagFailsResultPasses (n : string)
    : bool * results.Result * syexec.Result :=
  (false,
   {| results.HostMPI := mpi.zero; results.ContainerMPI := mpi.zero;
      results.Pass := true; results.Note := n |},
   {| syexec.Err := None |}).

Definition flagPassesResultFails (n : string)
    : bool * results.Result * syexec.Result :=
  (true,
   {| results.HostMPI := mpi.zero; results.ContainerMPI := mpi.zero;
      results.Pass := false; results.Note := n |},
   {| syexec.Err := None |}).

End flipped.

(** * Properties of the batch runner *)

(** The last element of a list that starts with [a], by default [a]. *)
Lemma last_cons_default {A} (a d : A) (l : list A) :
  List.last (a :: l) d = List.last l a.
Proof.
  revert a d. induction l as [|b l IH]; intros a d; [reflexivity|].
  change (List.last (a :: b :: l) d) with (List.last (b :: l) d).
  rewrite (IH b d), (IH b a). reflexivity.
Qed.

Section RunFacts.
Context {World : Type}.
Variable expRun : exp.Config -> sys.Config -> sy.MPIToolConfig ->
                  World -> (bool * results.Result * syexec.Result) * World.
Variable OpenResultsFile : string -> World -> bool * World.
Variable WriteString : string -> World -> option string * World.
Variable Sync : World -> option string * World.

Local Abbreviation runExperiment := (main.runExperiment expRun).
Local Abbreviation iteration := (main.iteration expRun).
Local Abbreviation iterations := (main.iterations expRun).
Local Abbreviation record := (main.record WriteString Sync).
Local Abbreviation experiment := (main.experiment expRun WriteString Sync).
Local Abbreviation experimentsLoop := (main.experimentsLoop expRun WriteString Sync).
Local Abbreviation run := (main.run expRun OpenResultsFile WriteString Sync).
Local Abbreviation attempts := (store.attempts expRun).
Local Abbreviation appendSynced := (store.appendSynced WriteString Sync).

(** The error returned by [runExperiment] is non-nil exactly when the runner
    reports one. *)
Lemma runExperiment_err e cfg sy w :
  main.notNil (runExperiment e cfg sy w).1.2
  = main.notNil (syexec.Err (expRun e cfg sy w).1.2).
Proof.
  unfold main.runExperiment.
  destruct (expRun e cfg sy w) as [[[pass res] execRes] w'].
  simpl. destruct (main.notNil (syexec.Err execRes)) eqn:E; simpl; auto.
Qed.

(** One iteration: the process ends when [runExperiment] returns an error;
    otherwise the result is appended to [newResults], and [success] is
    cleared when the result does not pass.  Nothing is written. *)
Lemma iteration_step e cfg sy l st :
  iteration e cfg sy l st =
  let (r, w) := runExperiment e cfg sy (main.world st) in
  let st' := {| main.world := w; main.written := main.written st |} in
  match r.2 with
  | Some t => main.Fatal (main.FatalExperiment t) st'
  | None =>
      main.Done
        {| main.success := main.success l && results.Pass r.1;
           main.failure := main.failure l;
           main.newRes := r.1;
           main.err := None;
           main.newResults := main.newResults l ++ [r.1] |} st'
  end.
Proof.
  unfold main.iteration, main.bind, main.call.
  destruct (runExperiment e cfg sy (main.world st)) as [[res err] w].
  destruct err as [t|]; simpl; [reflexivity|].
  unfold main.ret. do 2 f_equal.
  destruct (results.Pass res); simpl; [rewrite andb_true_r|rewrite andb_false_r];
    reflexivity.
Qed.

(** The loop of iterations against what the runner answers: when none of the
    [n] answers carries an error, the loop ends normally, having written
    nothing, with [success] cleared when some result did not pass, [newRes]
    the last result, and [failure] as it was. *)
Lemma iterations_complete n e cfg sy : forall l st outs w1,
  attempts n e cfg sy (main.world st) = (outs, w1) ->
  Forall (fun o => o.2 = None) outs ->
  exists l',
    iterations n e cfg sy l st
    = main.Done l' {| main.world := w1; main.written := main.written st |}
    /\ main.success l' = main.success l && forallb (fun o => results.Pass o.1) outs
    /\ main.failure l' = main.failure l
    /\ main.newRes l' = List.last (map fst outs) (main.newRes l)
    /\ main.newResults l' = (main.newResults l ++ map fst outs)%list.
Proof.
  induction n as [|n IH]; intros l st outs w1 Hatt Hok; simpl in Hatt.
  - injection Hatt as <- <-. exists l. simpl.
    rewrite andb_true_r, app_nil_r. destruct st; auto.
  - destruct (runExperiment e cfg sy (main.world st)) as [r w] eqn:Hr.
    destruct (attempts n e cfg sy w) as [rs w2] eqn:Hrs.
    injection Hatt as <- <-.
    apply Forall_cons_1 in Hok as [Hr2 Hok].
    simpl. unfold main.bind. rewrite iteration_step, Hr. simpl in Hr2.
    rewrite Hr2.
    set (l1 := {| main.success := _ |}).
    set (st1 := {| main.world := w |}).
    destruct (IH l1 st1 rs w2 Hrs Hok) as (l' & Hrun & Hs & Hf & Hn & Hrss).
    exists l'. subst l1 st1. simpl in *.
    repeat split; auto.
    + rewrite Hs. symmetry. apply andb_assoc.
    + rewrite Hn. symmetry. apply last_cons_default.
    + rewrite Hrss, <- app_assoc. reflexivity.
Qed.

(** In every case the loop of iterations writes nothing and leaves
    [failure] as it found it. *)
Lemma iterations_quiet n e cfg sy : forall l st,
  match iterations n e cfg sy l st with
  | main.Done l' st' =>
      main.written st' = main.written st /\ main.failure l' = main.failure l
  | main.Fatal _ st' => main.written st' = main.written st
  end.
Proof.
  induction n as [|n IH]; intros l st; simpl; [auto|].
  unfold main.bind. rewrite iteration_step.
  destruct (runExperiment e cfg sy (main.world st)) as [[res [t|]] w]; simpl;
    [reflexivity|].
  match goal with |- context [iterations n e cfg sy ?l1 ?s1] =>
    specialize (IH l1 s1); destruct (iterations n e cfg sy l1 s1) end;
    simpl in IH; tauto.
Qed.

(** Writing the record, when [failure] is not set: the line carries FAIL or
    PASS after [success] and the note of [newRes]; the process ends when the
    write or the sync fails. *)
Lemma record_step e l st :
  main.failure l = false ->
  let ln := store.line
              (store.recordOf e (if main.success l then store.PASS else store.FAIL)
                 (results.Note (main.newRes l))) in
  record e l st =
  match WriteString ln (main.world st) with
  | (Some t, w1) =>
      main.Fatal (main.FatalWrite t)
        {| main.world := w1; main.written := main.written st |}
  | (None, w1) =>
      match Sync w1 with
      | (Some t, w2) =>
          main.Fatal (main.FatalSync t)
            {| main.world := w2; main.written := main.written st ++ [ln] |}
      | (None, w2) =>
          main.Done tt
            {| main.world := w2; main.written := main.written st ++ [ln] |}
      end
  end.
Proof.
  intros Hf ln. unfold main.record. rewrite Hf.
  destruct (main.success l); simpl negb; cbv iota zeta;
    unfold main.bind, main.fWriteString, main.call;
    subst ln; unfold store.line, store.recordOf; simpl;
    destruct (WriteString _ (main.world st)) as [[t|] w1]; simpl; try reflexivity;
    destruct (Sync w1) as [[t|] w2]; reflexivity.
Qed.

Lemma passOrFailOf_recordOf e (b : bool) n es :
  In e es ->
  store.passOrFailOf es (store.recordOf e (if b then store.PASS else store.FAIL) n).
Proof.
  intros Hin. split; [destruct b; auto|]. exists e. auto.
Qed.

Lemma passOrFailOf_weaken e es r : store.passOrFailOf es r -> store.passOrFailOf (e :: es) r.
Proof.
  intros [Hs (e' & Hin & Hh & Hc)]. split; [exact Hs|].
  exists e'. split; [right; exact Hin|auto].
Qed.

(** One experiment appends at most one record, which is PASS or FAIL; when
    it ends normally the flag [failure] is not set. *)
Lemma experiment_records e cfg sy nr st :
  exists recs,
    main.written (store.final (experiment e cfg sy nr st))
    = (main.written st ++ map store.line recs)%list
    /\ Forall (store.passOrFailOf [e]) recs.
Proof.
  unfold main.experiment, main.bind.
  pose proof (iterations_quiet (Z.to_nat (sys.Nrun cfg)) e cfg sy
    {| main.success := true; main.failure := false; main.newRes := results.zero;
       main.err := None; main.newResults := nr |} st) as Hq.
  destruct (iterations _ _ _ _ _ _) as [l st1|m st1].
  - destruct Hq as [Hw Hf]. simpl in Hf.
    rewrite (record_step e l st1 Hf). cbv zeta.
    set (r := store.recordOf e _ _).
    assert (Hr : store.passOrFailOf [e] r) by (apply passOrFailOf_recordOf; left; auto).
    destruct (WriteString (store.line r) (main.world st1)) as [[t|] w1].
    + exists []. simpl. rewrite app_nil_r. auto.
    + destruct (Sync w1) as [[t|] w2]; exists [r]; simpl; rewrite Hw; auto.
  - exists []. simpl. rewrite app_nil_r. auto.
Qed.

Lemma experimentsLoop_records es cfg sy : forall nr st,
  exists recs,
    main.written (store.final (experimentsLoop es cfg sy nr st))
    = (main.written st ++ map store.line recs)%list
    /\ Forall (store.passOrFailOf es) recs.
Proof.
  induction es as [|e es IH]; intros nr st.
  - exists []. simpl. rewrite app_nil_r. auto.
  - simpl. unfold main.bind.
    destruct (experiment_records e cfg sy nr st) as (recs1 & Hw1 & Hr1).
    assert (Hr1' : Forall (store.passOrFailOf (e :: es)) recs1).
    { eapply List.Forall_impl; [|exact Hr1]. intros r [Hs (e' & [<-|[]] & Hv)].
      split; [exact Hs|]. exists e. split; [left; reflexivity|exact Hv]. }
    destruct (experiment e cfg sy nr st) as [l st1|m st1]; simpl in Hw1.
    + destruct (IH (main.newResults l) st1) as (recs2 & Hw2 & Hr2).
      exists (recs1 ++ recs2)%list. split.
      * rewrite Hw2, Hw1, map_app, app_assoc. reflexivity.
      * apply Forall_app. split; [exact Hr1'|].
        eapply List.Forall_impl; [|exact Hr2]. intros r. apply passOrFailOf_weaken.
    + exists recs1. auto.
Qed.

(** C10.  The flag [failure] is never set when the loop of iterations ends
    (each experiment starts it at [false] and its only assignment stores
    [false]), so the ERROR branch is never taken: whatever [run] is given
    and however it ends, the lines it has appended to the results file are
    records of the given experiments with status PASS or FAIL. *)
Theorem run_writes_no_error_record experiments sysCfg syConfig st :
  (forall n e cfg nr s,
      match iterations n e cfg syConfig
              {| main.success := true; main.failure := false;
                 main.newRes := results.zero; main.err := None;
                 main.newResults := nr |} s with
      | main.Done l _ => main.failure l = false
      | main.Fatal _ _ => True
      end)
  /\ exists recs,
       main.written (store.final (run experiments sysCfg syConfig st))
       = (main.written st ++ map store.line recs)%list
       /\ Forall (store.passOrFailOf experiments) recs.
Proof.
  split.
  - intros n e cfg nr s.
    pose proof (iterations_quiet n e cfg syConfig
      {| main.success := true; main.failure := false;
         main.newRes := results.zero; main.err := None;
         main.newResults := nr |} s) as Hq.
    destruct (iterations _ _ _ _ _ _); [tauto|exact I].
  - assert (Hnil : exists recs : list store.ResultRecord,
               main.written st = (main.written st ++ map store.line recs)%list
               /\ Forall (store.passOrFailOf experiments) recs).
    { exists []. simpl. rewrite app_nil_r. auto. }
    unfold main.run. destruct sysCfg as [cfg|]; [|exact Hnil].
    destruct (String.eqb (sys.OutputFile cfg) ""); [exact Hnil|].
    unfold main.bind, main.call.
    destruct (OpenResultsFile (sys.OutputFile cfg) (main.world st)) as [[|] w];
      simpl negb; cbv iota; [|exact Hnil].
    apply (experimentsLoop_records experiments cfg syConfig []
             {| main.world := w; main.written := main.written st |}).
Qed.

(** The verdict of one experiment, read from what [runExperiment] returns.
    When the [N] calls made for one experiment all return without an
    execution error, the experiment ends normally and appends exactly one
    record: FAIL when the [Pass] field of some returned result is not set,
    PASS when it is set in all, with the note of the last result (the empty
    note of the zero value when there was no iteration at all).  The write
    and the sync of that line are supposed to succeed. *)
Theorem experiment_verdict e cfg sy nr st outs w1 w2 w3 :
  attempts (Z.to_nat (sys.Nrun cfg)) e cfg sy (main.world st) = (outs, w1) ->
  Forall (fun o => o.2 = None) outs ->
  let verdict :=
    if forallb (fun o => results.Pass o.1) outs then store.PASS else store.FAIL in
  let r := store.recordOf e verdict
             (results.Note (List.last (map fst outs) results.zero)) in
  WriteString (store.line r) w1 = (None, w2) ->
  Sync w2 = (None, w3) ->
  (Exists (fun o => results.Pass o.1 = false) outs -> verdict = store.FAIL)
  /\ (Forall (fun o => results.Pass o.1 = true) outs -> verdict = store.PASS)
  /\ exists l,
       experiment e cfg sy nr st
       = main.Done l {| main.world := w3;
                        main.written := main.written st ++ [store.line r] |}
       /\ main.newResults l = (nr ++ map fst outs)%list.
Proof.
  intros Hatt Hok verdict r Hwrite Hsync.
  split; [|split].
  - intros Hex. subst verdict.
    destruct (forallb _ outs) eqn:Hall; [|reflexivity].
    rewrite forallb_forall in Hall. apply List.Exists_exists in Hex as (o & Hin & Ho).
    rewrite (Hall o Hin) in Ho. discriminate.
  - intros Hall. subst verdict.
    replace (forallb (fun o => results.Pass o.1) outs) with true; [reflexivity|].
    symmetry. apply forallb_forall. intros o Hin.
    rewrite List.Forall_forall in Hall. auto.
  - unfold main.experiment, main.bind.
    destruct (iterations_complete _ e cfg sy
                {| main.success := true; main.failure := false;
                   main.newRes := results.zero; main.err := None;
                   main.newResults := nr |} st outs w1 Hatt Hok)
      as (l & Hrun & Hs & Hf & Hn & Hnr).
    simpl in Hs, Hf, Hn, Hnr. rewrite Hrun.
    rewrite (record_step e l _ Hf). cbv zeta. rewrite Hs, Hn. simpl main.world.
    fold verdict. fold r. rewrite Hwrite, Hsync. simpl.
    exists l. auto.
Qed.

(** With a run count that is not positive an experiment makes no call of
    the runner and goes straight to the PASS branch with the zero result. *)
Lemma experimentsLoop_no_iteration es cfg sy : forall nr st w1,
  sys.Nrun cfg <= 0 ->
  appendSynced (map (fun e => store.line (store.recordOf e store.PASS "")) es)
    (main.world st) = Some w1 ->
  experimentsLoop es cfg sy nr st
  = main.Done nr
      {| main.world := w1;
         main.written :=
           main.written st
           ++ map (fun e => store.line (store.recordOf e store.PASS "")) es |}.
Proof.
  intros nr st w1 Hn. revert st.
  assert (Hz : Z.to_nat (sys.Nrun cfg) = O) by lia.
  induction es as [|e es IH]; intros st Happ; simpl in Happ.
  - injection Happ as <-. simpl. rewrite app_nil_r. destruct st; reflexivity.
  - destruct (WriteString _ (main.world st)) as [[t|] wa] eqn:Hw; [discriminate|].
    destruct (Sync wa) as [[t|] wb] eqn:Hs; [discriminate|].
    simpl. unfold main.bind at 1. unfold main.experiment. rewrite Hz. simpl.
    set (l0 := {| main.success := true; main.failure := false;
                  main.newRes := results.zero; main.err := None;
                  main.newResults := nr |}).
    unfold main.bind, main.ret.
    rewrite (record_step e l0 st eq_refl). cbv zeta. simpl.
    rewrite Hw, Hs.
    rewrite (IH {| main.world := wb; main.written := _ |} Happ).
    simpl. rewrite <- app_assoc. reflexivity.
Qed.

(** C8, as the code has it.  The run count is not validated: when it is zero
    or negative [run] is not refused; it makes no call of the runner, returns
    no result, and appends for every experiment a PASS record with an empty
    note (the results file being opened, written and synced without
    error). *)
Theorem run_nonpositive_count es cfg sy st w0 w1 :
  sys.Nrun cfg <= 0 ->
  sys.OutputFile cfg <> "" ->
  OpenResultsFile (sys.OutputFile cfg) (main.world st) = (true, w0) ->
  appendSynced (map (fun e => store.line (store.recordOf e store.PASS "")) es) w0
  = Some w1 ->
  run es (Some cfg) sy st
  = main.Done []
      {| main.world := w1;
         main.written :=
           main.written st
           ++ map (fun e => store.line (store.recordOf e store.PASS "")) es |}.
Proof.
  intros Hn Hfile Hopen Happ. unfold main.run.
  destruct (String.eqb_spec (sys.OutputFile cfg) "") as [E|_]; [contradiction|].
  unfold main.bind, main.call. rewrite Hopen. simpl negb. cbv iota.
  apply (experimentsLoop_no_iteration es cfg sy []
           {| main.world := w0; main.written := main.written st |} w1 Hn Happ).
Qed.

(** The first execution error ends the whole process: when the first call of
    the runner for the first experiment reports an error, [run] ends in
    [log.Fatalf] and nothing has been written. *)
Lemma run_first_error e es cfg sy st w0 w1 pass res t :
  0 < sys.Nrun cfg ->
  sys.OutputFile cfg <> "" ->
  OpenResultsFile (sys.OutputFile cfg) (main.world st) = (true, w0) ->
  expRun e cfg sy w0 = (pass, res, {| syexec.Err := Some t |}, w1) ->
  run (e :: es) (Some cfg) sy st
  = main.Fatal
      (main.FatalExperiment
         ("failure during the execution of the experiment: " ++ t))
      {| main.world := w1; main.written := main.written st |}.
Proof.
  intros Hn Hfile Hopen Hrun. unfold main.run.
  destruct (String.eqb_spec (sys.OutputFile cfg) "") as [E|_]; [contradiction|].
  unfold main.bind at 1. unfold main.call. rewrite Hopen. simpl negb. cbv iota.
  destruct (Z.to_nat (sys.Nrun cfg)) as [|n] eqn:Hz; [lia|].
  simpl. unfold main.bind at 1. unfold main.experiment.
  unfold main.bind at 1. rewrite Hz. simpl. unfold main.bind at 1.
  rewrite iteration_step. unfold main.runExperiment. simpl main.world.
  rewrite Hrun. reflexivity.
Qed.

End RunFacts.

(** [experiment_verdict] at a concrete batch: three results with [Pass] set,
    not set, set give one FAIL record with the note of the third. *)
Lemma experiment_verdict_witness :
  exists l,
    main.experiment scripted.expRun scripted.WriteString scripted.Sync
      scripted.e12 (scripted.sysCfg 3) scripted.syConfig []
      (scripted.start
         [scripted.passing "a"; scripted.failing "b"; scripted.passing "c"])
    = main.Done l
        {| main.world :=
             {| scripted.script := [];
                scripted.ran := [scripted.e12; scripted.e12; scripted.e12] |};
           main.written :=
             [store.line (store.recordOf scripted.e12 store.FAIL "c")] |}.
Proof.
  pose (outs := [scripted.passing "a"; scripted.failing "b"; scripted.passing "c"]).
  pose (w := {| scripted.script := [];
                scripted.ran := [scripted.e12; scripted.e12; scripted.e12] |}).
  destruct (experiment_verdict scripted.expRun scripted.WriteString scripted.Sync
              scripted.e12 (scripted.sysCfg 3) scripted.syConfig []
              (scripted.start outs)
              (map (fun o => (o.1.2, None)) outs) w w w
              eq_refl ltac:(repeat constructor) eq_refl eq_refl)
    as (_ & _ & l & Hl & _).
  exists l. exact Hl.
Defined.

(** C8 at a concrete batch: a negative run count, two experiments, two PASS
    records and no call of the runner. *)
Lemma run_nonpositive_count_witness :
  scripted.run [scripted.e11; scripted.e12] (Some (scripted.sysCfg (-2)))
    scripted.syConfig (scripted.start [])
  = main.Done []
      {| main.world := {| scripted.script := []; scripted.ran := [] |};
         main.written :=
           [store.line (store.recordOf scripted.e11 store.PASS "");
            store.line (store.recordOf scripted.e12 store.PASS "")] |}.
Proof.
  apply (run_nonpositive_count scripted.expRun scripted.OpenResultsFile
           scripted.WriteString scripted.Sync [scripted.e11; scripted.e12]
           (scripted.sysCfg (-2)) scripted.syConfig (scripted.start [])
           {| scripted.script := []; scripted.ran := [] |}
           {| scripted.script := []; scripted.ran := [] |}).
  - simpl. lia.
  - discriminate.
  - reflexivity.
  - reflexivity.
Defined.

(** C8 as stated fails: with a run count of zero the run is accepted, no
    iteration is made, and a PASS record is appended for the experiment. *)
Lemma run_zero_count_accepted :
  scripted.run [scripted.e12] (Some (scripted.sysCfg 0))
    scripted.syConfig (scripted.start [])
  = main.Done []
      {| main.world := {| scripted.script := []; scripted.ran := [] |};
         main.written := [store.line (store.recordOf scripted.e12 store.PASS "")] |}.
Proof. reflexivity. Qed.

(** C1 on the code.  Three iterations, the runner answering pass, error,
    pass, and a second experiment pending: the second iteration's error ends
    the process in [log.Fatalf]; no record is written for the first
    experiment, the third iteration is not made and the second experiment is
    never run. *)
Theorem run_error_aborts_batch :
  scripted.run [scripted.e11; scripted.e12] (Some (scripted.sysCfg 3))
    scripted.syConfig
    (scripted.start [scripted.passing "ok";
                     scripted.erroring "" "cannot launch";
                     scripted.passing "ok"])
  = main.Fatal
      (main.FatalExperiment
         "failure during the execution of the experiment: cannot launch")
      {| main.world := {| scripted.script := [scripted.passing "ok"];
                          scripted.ran := [scripted.e11; scripted.e11] |};
         main.written := [] |}.
Proof. reflexivity. Qed.

(** * Properties of the configuration parser *)

(** The detector names an implementation exactly when it gives a version. *)
Lemma detect_cases line implem version :
  configparser.detectMpiImplem line = Some (implem, version) ->
  (implem = "" /\ version = "") \/ (implem <> "" /\ version <> "").
Proof.
  unfold configparser.detectMpiImplem.
  destruct (configparser.detectOpenMPIVersion line) as [v1|]; simpl; [|discriminate].
  destruct (String.eqb_spec v1 ""); simpl.
  2: { intros [= <- <-]. right. split; [discriminate|assumption]. }
  destruct (configparser.detectMPICHVersion line) as [v2|]; simpl; [|discriminate].
  destruct (String.eqb_spec v2 ""); simpl.
  2: { intros [= <- <-]. right. split; [discriminate|assumption]. }
  destruct (configparser.detectIntelMPIVersion line) as [v3|]; simpl; [|discriminate].
  destruct (String.eqb_spec v3 ""); simpl.
  2: { intros [= <- <-]. right. split; [discriminate|assumption]. }
  intros [= <- <-]. left. auto.
Qed.

Lemma detects_version line implem version :
  detector.detects line implem version ->
  version <> "" /\ detector.versionOf line = version.
Proof.
  intros [Hd Hi]. split.
  - destruct (detect_cases _ _ _ Hd) as [[? _]|[_ ?]]; [contradiction|assumption].
  - unfold detector.versionOf. rewrite Hd. reflexivity.
Qed.

Lemma detects_functional line a va b vb :
  detector.detects line a va -> detector.detects line b vb -> a = b /\ va = vb.
Proof. intros [Ha _] [Hb _]. rewrite Ha in Hb. injection Hb. auto. Qed.

(** One turn of the loop of [Parse] on an entry that is detected. *)
Lemma parseEntries_detected kv kvs c implem version :
  detector.detects (kv.Value kv) implem version ->
  configparser.parseEntries (kv :: kvs) c =
  if String.eqb (configparser.MPIImplem c) ""
  then configparser.parseEntries kvs
         {| configparser.filename := configparser.filename c;
            configparser.MPIImplem := implem;
            configparser.MpiMap :=
              <[version := kv.Value kv]> (configparser.MpiMap c) |}
  else if negb (String.eqb (configparser.MPIImplem c) implem)
  then configparser.Err (configparser.ErrConflict (configparser.MPIImplem c) implem)
  else configparser.parseEntries kvs
         {| configparser.filename := configparser.filename c;
            configparser.MPIImplem := configparser.MPIImplem c;
            configparser.MpiMap :=
              <[version := kv.Value kv]> (configparser.MpiMap c) |}.
Proof.
  intros Hd. destruct (detects_version _ _ _ Hd) as [Hv _]. destruct Hd as [Hd Hi].
  simpl. rewrite Hd.
  destruct (String.eqb_spec implem ""); [contradiction|].
  destruct (String.eqb_spec version ""); [contradiction|]. reflexivity.
Qed.

(** One turn of the loop on an entry that is not detected. *)
Lemma parseEntries_undetected kv kvs c :
  detector.undetected (kv.Value kv) ->
  configparser.parseEntries (kv :: kvs) c
  = configparser.Err (configparser.ErrDetect (kv.Value kv)).
Proof. intros Hu. simpl. rewrite Hu. reflexivity. Qed.

(** Every answer of the detector is a panic, "not detected", or a named
    implementation. *)
Lemma detect_trichotomy line :
  configparser.detectMpiImplem line = None
  \/ detector.undetected line
  \/ exists implem version, detector.detects line implem version.
Proof.
  destruct (configparser.detectMpiImplem line) as [[i v]|] eqn:Hd; [|auto].
  right. destruct (detect_cases _ _ _ Hd) as [[-> ->]|[Hi _]].
  - left. exact Hd.
  - right. exists i, v. split; assumption.
Qed.

(** A successful loop: the implementation of the configuration is kept when
    it was already fixed, and every entry detects to the final one. *)
Lemma parseEntries_ok kvs : forall c c',
  configparser.parseEntries kvs c = configparser.Ok c' ->
  (configparser.MPIImplem c <> "" ->
   configparser.MPIImplem c' = configparser.MPIImplem c)
  /\ forall kv, In kv kvs ->
       exists version,
         detector.detects (kv.Value kv) (configparser.MPIImplem c') version.
Proof.
  induction kvs as [|kv kvs IH]; intros c c' Hp.
  - simpl in Hp. injection Hp as <-. split; [auto|intros ? []].
  - destruct (detect_trichotomy (kv.Value kv)) as [Hn|[Hu|(i & v & Hd)]].
    + simpl in Hp. rewrite Hn in Hp. discriminate.
    + rewrite (parseEntries_undetected _ _ _ Hu) in Hp. discriminate.
    + rewrite (parseEntries_detected _ _ _ _ _ Hd) in Hp.
      assert (Hi : i <> "") by apply Hd.
      destruct (String.eqb_spec (configparser.MPIImplem c) "") as [E|E].
      * apply IH in Hp as [Hk Hall]. simpl in Hk. specialize (Hk Hi).
        split; [intros; contradiction|].
        intros kv' [<-|Hin]; [|auto]. exists v. rewrite Hk. exact Hd.
      * destruct (String.eqb_spec (configparser.MPIImplem c) i) as [E'|E'];
          simpl in Hp; [|discriminate].
        apply IH in Hp as [Hk Hall]. simpl in Hk. specialize (Hk E).
        split; [auto|].
        intros kv' [<-|Hin]; [|auto]. exists v. rewrite Hk, E'. exact Hd.
Qed.

(** The loop panics only when the detector does on some entry. *)
Lemma parseEntries_no_panic kvs : forall c,
  (forall kv, In kv kvs -> configparser.detectMpiImplem (kv.Value kv) <> None) ->
  configparser.parseEntries kvs c <> configparser.Panic.
Proof.
  induction kvs as [|kv kvs IH]; intros c Hall; [discriminate|].
  assert (Hrest : forall kv', In kv' kvs ->
            configparser.detectMpiImplem (kv.Value kv') <> None)
    by (intros; apply Hall; right; assumption).
  destruct (detect_trichotomy (kv.Value kv)) as [Hn|[Hu|(i & v & Hd)]].
  - exfalso. apply (Hall kv); [left; reflexivity|exact Hn].
  - rewrite (parseEntries_undetected _ _ _ Hu). discriminate.
  - rewrite (parseEntries_detected _ _ _ _ _ Hd).
    destruct (String.eqb (configparser.MPIImplem c) ""); [apply IH; exact Hrest|].
    destruct (negb _); [discriminate|apply IH; exact Hrest].
Qed.

(** When every entry is detected the only error is the conflict of two
    different implementations, both detected from entries or fixed before. *)
Lemma parseEntries_conflict_only kvs : forall c e,
  (forall kv, In kv kvs ->
     exists implem version, detector.detects (kv.Value kv) implem version) ->
  configparser.parseEntries kvs c = configparser.Err e ->
  exists have got, have <> got /\ e = configparser.ErrConflict have got.
Proof.
  induction kvs as [|kv kvs IH]; intros c e Hall Hp; [discriminate|].
  assert (Hrest : forall kv', In kv' kvs ->
            exists implem version, detector.detects (kv.Value kv') implem version)
    by (intros; apply Hall; right; assumption).
  destruct (Hall kv (or_introl eq_refl)) as (i & v & Hd).
  rewrite (parseEntries_detected _ _ _ _ _ Hd) in Hp.
  destruct (String.eqb (configparser.MPIImplem c) ""); [eapply IH; eauto|].
  destruct (String.eqb_spec (configparser.MPIImplem c) i) as [E|E]; simpl in Hp.
  - eapply IH; eauto.
  - injection Hp as <-. eauto.
Qed.

(** When every entry detects to the one implementation [implem], the loop
    succeeds and stores every entry under its version, in order. *)
Lemma parseEntries_complete implem kvs : forall c,
  (forall kv, In kv kvs ->
     exists version, detector.detects (kv.Value kv) implem version) ->
  configparser.MPIImplem c = "" \/ configparser.MPIImplem c = implem ->
  configparser.parseEntries kvs c =
  configparser.Ok
    {| configparser.filename := configparser.filename c;
       configparser.MPIImplem :=
         match kvs with [] => configparser.MPIImplem c | _ => implem end;
       configparser.MpiMap := detector.stored kvs (configparser.MpiMap c) |}.
Proof.
  induction kvs as [|kv kvs IH]; intros c Hall Hc.
  - destruct c; reflexivity.
  - destruct (Hall kv (or_introl eq_refl)) as (v & Hd).
    rewrite (parseEntries_detected _ _ _ _ _ Hd).
    destruct (detects_version _ _ _ Hd) as [_ Hv].
    assert (Hi : implem <> "") by apply Hd.
    assert (Hrest : forall kv', In kv' kvs ->
              exists version, detector.detects (kv.Value kv') implem version)
      by (intros; apply Hall; right; assumption).
    unfold detector.stored. simpl fold_left. rewrite Hv.
    destruct (String.eqb_spec (configparser.MPIImplem c) "") as [E|E].
    + rewrite IH; [|exact Hrest|right; reflexivity]. simpl.
      destruct kvs; reflexivity.
    + destruct Hc as [Hc|Hc]; [contradiction|].
      rewrite Hc, String.eqb_refl. simpl negb. cbv iota.
      rewrite IH; [|exact Hrest|right; reflexivity]. simpl.
      destruct kvs; reflexivity.
Qed.

Section ParseFacts.
Variable LoadKeyValueConfig : string -> list kv.KV + string.
Local Abbreviation Parse := (configparser.Parse LoadKeyValueConfig).

(** C4, as the code has it.  [Parse] fails when the detector does not detect
    some entry: it never returns a configuration then, and it returns an
    error when the detector answers for every entry.  From zero entries it
    succeeds, with no implementation and an empty version map. *)
Theorem parse_undetected_fails_empty_succeeds file :
  (LoadKeyValueConfig file = inl [] ->
   Parse file = configparser.Ok
                  {| configparser.filename := file;
                     configparser.MPIImplem := "";
                     configparser.MpiMap := ∅ |})
  /\ (forall kvs kv,
        LoadKeyValueConfig file = inl kvs ->
        In kv kvs ->
        detector.undetected (kv.Value kv) ->
        (forall c, Parse file <> configparser.Ok c)
        /\ ((forall kv', In kv' kvs ->
               configparser.detectMpiImplem (kv.Value kv') <> None) ->
            exists e, Parse file = configparser.Err e)).
Proof.
  unfold configparser.Parse. split.
  - intros ->. reflexivity.
  - intros kvs kv -> Hin Hu.
    assert (Hno : forall c,
              configparser.parseEntries kvs
                {| configparser.filename := file; configparser.MPIImplem := "";
                   configparser.MpiMap := ∅ |} <> configparser.Ok c).
    { intros c Hp. apply parseEntries_ok in Hp as [_ Hall].
      destruct (Hall kv Hin) as (v & Hd & Hi).
      unfold detector.undetected in Hu. rewrite Hu in Hd.
      injection Hd as E _. apply Hi. symmetry. exact E. }
    split; [exact Hno|].
    intros Hnp.
    pose proof (parseEntries_no_panic kvs
      {| configparser.filename := file; configparser.MPIImplem := "";
         configparser.MpiMap := ∅ |} Hnp) as Hp.
    destruct (configparser.parseEntries kvs _) as [c|e|] eqn:E.
    + destruct (Hno c). reflexivity.
    + exists e. reflexivity.
    + contradiction.
Qed.

(** Entries stored under other versions leave the binding of [version]. *)
Lemma stored_other version kvs : forall m,
  (forall kv, In kv kvs -> detector.versionOf (kv.Value kv) <> version) ->
  detector.stored kvs m !! version = m !! version.
Proof.
  induction kvs as [|kv kvs IH]; intros m Hall; [reflexivity|].
  unfold detector.stored. simpl. fold (detector.stored kvs).
  rewrite IH by (intros; apply Hall; right; assumption).
  apply lookup_insert_ne. apply Hall. left. reflexivity.
Qed.

(** The binding of a version is the value of the last entry that has it. *)
Lemma stored_last version before kv after m :
  detector.versionOf (kv.Value kv) = version ->
  (forall kv', In kv' after -> detector.versionOf (kv.Value kv') <> version) ->
  detector.stored (before ++ kv :: after)%list m !! version = Some (kv.Value kv).
Proof.
  intros Hv Hafter. unfold detector.stored. rewrite fold_left_app. simpl.
  fold (detector.stored after). rewrite (stored_other version after _ Hafter).
  rewrite Hv. apply lookup_insert_eq.
Qed.

(** C9.  Two entries of one implementation that give the same version, the
    second one later in the file and the last to give it: [Parse] succeeds
    and the version map binds the version to the value of the later
    entry. *)
Theorem parse_last_write_wins file implem
    (pre : list kv.KV) kv1 (mid : list kv.KV) kv2 (post : list kv.KV) version :
  LoadKeyValueConfig file = inl (pre ++ kv1 :: mid ++ kv2 :: post)%list ->
  (forall kv, In kv (pre ++ kv1 :: mid ++ kv2 :: post)%list ->
     exists v, detector.detects (kv.Value kv) implem v) ->
  detector.detects (kv.Value kv1) implem version ->
  detector.detects (kv.Value kv2) implem version ->
  (forall kv, In kv post -> ~ detector.detects (kv.Value kv) implem version) ->
  exists c,
    Parse file = configparser.Ok c
    /\ configparser.MPIImplem c = implem
    /\ configparser.MpiMap c !! version = Some (kv.Value kv2).
Proof.
  intros Hload Hall Hd1 Hd2 Hpost. unfold configparser.Parse. rewrite Hload.
  rewrite (parseEntries_complete implem) by (simpl; auto).
  eexists. split; [reflexivity|]. simpl. split.
  - destruct pre; reflexivity.
  - replace (pre ++ kv1 :: mid ++ kv2 :: post)%list
      with ((pre ++ kv1 :: mid) ++ kv2 :: post)%list
      by (rewrite <- app_assoc; reflexivity).
    apply stored_last.
    + apply (detects_version _ _ _ Hd2).
    + intros kv Hin Hv.
      destruct (Hall kv) as (v & Hd).
      { apply in_or_app. right. right. apply in_or_app. right. right. exact Hin. }
      apply (Hpost kv Hin). destruct (detects_version _ _ _ Hd) as [_ Hv'].
      rewrite Hv in Hv'. rewrite Hv'. exact Hd.
Qed.

End ParseFacts.

(** C4 as stated fails: from zero entries [Parse] returns a configuration. *)
Lemma parse_empty_succeeds :
  configparser.Parse (sample.loading []) "etc/openmpi.conf"
  = configparser.Ok
      {| configparser.filename := "etc/openmpi.conf";
         configparser.MPIImplem := "";
         configparser.MpiMap := ∅ |}.
Proof. reflexivity. Qed.

(** C4 at concrete entries: no entries, and an entry that is not detected
    after one that is. *)
Lemma parse_undetected_fails_empty_succeeds_witness :
  configparser.Parse (sample.loading []) "etc/mpich.conf"
  = configparser.Ok
      {| configparser.filename := "etc/mpich.conf";
         configparser.MPIImplem := "";
         configparser.MpiMap := ∅ |}
  /\ exists e,
       configparser.Parse (sample.loading [sample.ompi304; sample.junk])
         "etc/mpich.conf"
       = configparser.Err e.
Proof.
  split.
  - apply (proj1 (parse_undetected_fails_empty_succeeds
                    (sample.loading []) "etc/mpich.conf")).
    reflexivity.
  - apply (proj2 (parse_undetected_fails_empty_succeeds
                    (sample.loading [sample.ompi304; sample.junk])
                    "etc/mpich.conf")
             [sample.ompi304; sample.junk] sample.junk eq_refl).
    + right. left. reflexivity.
    + reflexivity.
    + intros kv' [<-|[<-|[]]]; discriminate.
Defined.

(** C5 as stated fails: an entry that is not detected, between two entries
    of different implementations, makes [Parse] fail with the detection
    error, not with the conflict. *)
Lemma parse_undetected_before_conflict :
  detector.detects (kv.Value sample.ompi304) "openmpi" "3.0.4"
  /\ detector.detects (kv.Value sample.mpich33) "mpich" "3.3"
  /\ configparser.Parse
       (sample.loading [sample.ompi304; sample.junk; sample.mpich33])
       "etc/openmpi.conf"
     = configparser.Err (configparser.ErrDetect "junk").
Proof.
  split; [split; [reflexivity|discriminate]|].
  split; [split; [reflexivity|discriminate]|]. reflexivity.
Qed.

(** C9 at concrete entries: version 3.0.4 from the release site, then 3.1.0,
    then 3.0.4 again from a mirror; the map keeps the mirror. *)
Lemma parse_last_write_wins_witness :
  exists c,
    configparser.Parse
      (sample.loading [sample.ompi304; sample.ompi310; sample.ompi304mirror])
      "etc/openmpi.conf"
    = configparser.Ok c
    /\ configparser.MPIImplem c = "openmpi"
    /\ configparser.MpiMap c !! "3.0.4"
       = Some "https://mirror.example.org/openmpi-3.0.4.tar.gz".
Proof.
  apply (parse_last_write_wins
           (sample.loading [sample.ompi304; sample.ompi310; sample.ompi304mirror])
           "etc/openmpi.conf" "openmpi"
           [] sample.ompi304 [sample.ompi310] sample.ompi304mirror [] "3.0.4").
  - reflexivity.
  - intros kv [<-|[<-|[<-|[]]]]; eexists; (split; [reflexivity|discriminate]).
  - split; [reflexivity|discriminate].
  - split; [reflexivity|discriminate].
  - intros kv [].
Defined.

(** * Properties of the experiment matrix *)

Lemma innerLoop_spec config host todo : forall experiments,
  main.innerLoop config host todo experiments
  = (experiments ++ (main.newExperiment config host <$> todo))%list.
Proof.
  induction todo as [|c todo IH]; intros experiments; simpl.
  - by rewrite app_nil_r.
  - by rewrite IH, <- app_assoc.
Qed.

(** In a list of pairs with distinct first components, exactly one pair has
    the first component of a given member. *)
Lemma filter_key_length (l : list (string * string)) (x : string) :
  NoDup (l.*1) -> x ∈ l.*1 -> length (filter (fun c => x = c.1) l) = 1%nat.
Proof.
  induction l as [|c l IH]; simpl; intros Hnd Hin.
  - by apply elem_of_nil in Hin.
  - apply NoDup_cons in Hnd as [Hc Hnd].
    destruct (decide (x = c.1)) as [->|Hne].
    + rewrite filter_cons_True by done. simpl. f_equal.
      clear IH Hin. induction l as [|d l IH]; [done|].
      simpl in Hc. apply not_elem_of_cons in Hc as [Hd Hc].
      apply NoDup_cons in Hnd as [_ Hnd].
      rewrite filter_cons_False by done. by apply IH.
    + rewrite filter_cons_False by done.
      apply elem_of_cons in Hin as [?|Hin]; [done|]. by apply IH.
Qed.

Section Matrix.
Variable rangeOrder : nat -> gmap string string -> list (string * string).
(** Every [range] statement visits each entry of the map once. *)
Hypothesis rangeOrder_perm : forall n m, rangeOrder n m ≡ₚ map_to_list m.

Lemma outerLoop_spec config todo : forall k experiments,
  main.outerLoop rangeOrder config k todo experiments
  ≡ₚ experiments
     ++ (todo ≫= fun host =>
           main.newExperiment config host
             <$> map_to_list (configparser.MpiMap config)).
Proof.
  induction todo as [|host todo IH]; intros k experiments; csimpl.
  - by rewrite app_nil_r.
  - rewrite IH, innerLoop_spec, rangeOrder_perm, <- app_assoc. done.
Qed.

Lemma product_length config (l hosts : list (string * string)) :
  length (hosts ≫= fun host => main.newExperiment config host <$> l)
  = (length hosts * length l)%nat.
Proof.
  induction hosts as [|h hosts IH]; csimpl; [done|].
  by rewrite length_app, length_fmap, IH.
Qed.

(** The diagonal of the product of [hosts] with [l]: one experiment for every
    host that is a member of [l]. *)
Lemma diagonal_count config (l hosts : list (string * string)) :
  NoDup (l.*1) -> hosts ⊆ l ->
  length (filter matrix.diagonal
            (hosts ≫= fun host => main.newExperiment config host <$> l))
  = length hosts.
Proof.
  intros Hnd. induction hosts as [|host hosts IH]; intros Hsub; csimpl; [done|].
  rewrite filter_app, length_app, IH by set_solver.
  assert (Hone : length (filter matrix.diagonal (main.newExperiment config host <$> l))
                 = 1%nat); [|by rewrite Hone].
  rewrite <- (filter_key_length l host.1 Hnd).
  - clear. induction l as [|c l IH]; [done|]. csimpl.
    destruct (decide (host.1 = c.1)) as [E|E].
    + rewrite !filter_cons_True by done. simpl. by rewrite IH.
    + rewrite !filter_cons_False by done. done.
  - apply list_elem_of_fmap. exists host. split; [done|]. apply Hsub. left.
Qed.

(** C7.  Whatever orders the [range] statements follow, the experiments
    built from a configuration with [k] versions are a rearrangement of the
    product of the version map with itself: [k * k] experiments, all
    different, one for every pair of a host entry and a container entry, of
    which [k] pair a version with itself. *)
Theorem getListExperiments_square config :
  let versions := map_to_list (configparser.MpiMap config) in
  let k := size (configparser.MpiMap config) in
  let experiments := main.getListExperiments rangeOrder config in
  length experiments = (k * k)%nat
  /\ experiments
     ≡ₚ (versions ≫= fun host => main.newExperiment config host <$> versions)
  /\ NoDup experiments
  /\ (forall e, e ∈ experiments <->
        exists v1 u1 v2 u2,
          configparser.MpiMap config !! v1 = Some u1
          /\ configparser.MpiMap config !! v2 = Some u2
          /\ e = main.newExperiment config (v1, u1) (v2, u2))
  /\ length (filter matrix.diagonal experiments) = k.
Proof.
  intros versions k experiments.
  assert (Hperm : experiments
            ≡ₚ (versions ≫= fun host => main.newExperiment config host <$> versions)).
  { subst experiments versions. unfold main.getListExperiments.
    rewrite outerLoop_spec. simpl. rewrite rangeOrder_perm. reflexivity. }
  assert (Hlen : length versions = k) by apply length_map_to_list.
  split; [|split; [exact Hperm|split; [|split]]].
  - rewrite Hperm, <- Hlen. apply product_length.
  - rewrite Hperm. apply NoDup_bind.
    + intros h1 h2 e _ _ H1 H2.
      apply list_elem_of_fmap in H1 as (c1 & -> & _).
      apply list_elem_of_fmap in H2 as (c2 & E & _).
      destruct h1, h2. unfold main.newExperiment in E. simpl in E. congruence.
    + intros h _. apply NoDup_fmap_2_strong; [|apply NoDup_map_to_list].
      intros c1 c2 _ _ E. destruct c1, c2.
      unfold main.newExperiment in E. simpl in E. congruence.
    + apply NoDup_map_to_list.
  - intros e. rewrite Hperm, list_elem_of_bind. split.
    + intros ([v1 u1] & He & H1). apply list_elem_of_fmap in He as ([v2 u2] & -> & H2).
      exists v1, u1, v2, u2.
      by rewrite <- !elem_of_map_to_list.
    + intros (v1 & u1 & v2 & u2 & H1 & H2 & ->).
      exists (v1, u1). rewrite list_elem_of_fmap.
      split; [exists (v2, u2); split; [done|]|]; by apply elem_of_map_to_list.
  - rewrite Hperm, <- Hlen. apply diagonal_count; [|done].
    apply NoDup_fst_map_to_list.
Qed.

End Matrix.

(** C7 at a concrete configuration: two versions, the inner loops visiting
    the map in the order opposite to the outer loop's; four experiments, two
    of them on the diagonal. *)
Lemma getListExperiments_square_witness :
  length (main.getListExperiments matrix.alternating matrix.twoVersions) = 4%nat
  /\ length (filter matrix.diagonal
               (main.getListExperiments matrix.alternating matrix.twoVersions))
     = 2%nat.
Proof.
  assert (Hperm : forall n m, matrix.alternating n m ≡ₚ map_to_list m).
  { intros n m. unfold matrix.alternating.
    destruct (Nat.even n); [done|apply reverse_Permutation]. }
  destruct (getListExperiments_square matrix.alternating Hperm matrix.twoVersions)
    as (Hlen & _ & _ & _ & Hdiag).
  split; [exact Hlen|exact Hdiag].
Defined.

(** * Properties of the detector *)

(** The documented example of [detectMpiImplem]. *)
Example detect_openmpi_release :
  configparser.detectMpiImplem
    "https://download.open-mpi.org/release/open-mpi/v3.0/openmpi-3.0.4.tar.bz2"
  = Some ("openmpi", "3.0.4").
Proof. reflexivity. Qed.

(** A line without any of the three markers is not detected. *)
Lemma detect_without_marker line :
  strings.Contains line "openmpi-" = false ->
  strings.Contains line "mpich-" = false ->
  strings.Contains line "l_mpi_" = false ->
  detector.undetected line.
Proof.
  intros Ho Hm Hi.
  unfold detector.undetected, configparser.detectMpiImplem,
    configparser.detectOpenMPIVersion, configparser.detectMPICHVersion,
    configparser.detectIntelMPIVersion.
  rewrite Ho, Hm, Hi. reflexivity.
Qed.

(** A line without [.tar] is not detected. *)
Lemma detect_without_tar line :
  strings.Contains line ".tar" = false -> detector.undetected line.
Proof.
  intros Ht.
  unfold detector.undetected, configparser.detectMpiImplem,
    configparser.detectOpenMPIVersion, configparser.detectMPICHVersion,
    configparser.detectIntelMPIVersion.
  rewrite Ht.
  destruct (strings.Contains line "openmpi-"), (strings.Contains line "mpich-"),
    (strings.Contains line "l_mpi_"); reflexivity.
Qed.

(** The Open MPI detector panics on every line whose first [.tar] starts
    before the end of its first [openmpi-]: the slice expression has its low
    index above its high index. *)
Lemma detectOpenMPIVersion_panics line :
  strings.Contains line "openmpi-" = true ->
  strings.Contains line ".tar" = true ->
  strings.Index line ".tar" < strings.Index line "openmpi-" + 8 ->
  configparser.detectOpenMPIVersion line = None.
Proof.
  intros Ho Ht Hlt. unfold configparser.detectOpenMPIVersion.
  rewrite Ho, Ht. unfold strings.Contains in Ho, Ht.
  apply Z.leb_le in Ho, Ht.
  replace (strings.Index line "openmpi-" + 8 =? -1) with false by (symmetry; apply Z.eqb_neq; lia).
  replace (strings.Index line ".tar" =? -1) with false by (symmetry; apply Z.eqb_neq; lia).
  simpl. unfold strings.slice.
  replace (strings.Index line "openmpi-" + 8 <=? strings.Index line ".tar")
    with false by (symmetry; apply Z.leb_gt; lia).
  rewrite andb_false_r. reflexivity.
Qed.

(** C2 on the code.  A location whose first [.tar] lies before the
    [openmpi-] marker (here in the name of a directory) is not answered with
    "not detected": the slice expression [line[startVersion:endVersion]] is
    evaluated with [startVersion = 39] and [endVersion = 26], and the
    detector panics.  The same happens for the [mpich-] marker. *)
Theorem detect_panics_tar_before_marker :
  strings.Index "https://example.org/mirror.tar/openmpi-3.0.4.tar.gz" ".tar" = 26
  /\ strings.Index "https://example.org/mirror.tar/openmpi-3.0.4.tar.gz" "openmpi-" + 8 = 39
  /\ configparser.detectMpiImplem
       "https://example.org/mirror.tar/openmpi-3.0.4.tar.gz" = None
  /\ configparser.detectMpiImplem
       "https://example.org/mirror.tar/mpich-3.3.tar.gz" = None.
Proof. repeat split. Qed.

(** C3 on the code.  For Intel MPI the version starts at the marker, not
    after it: the detector answers [l_mpi_2019.4.243] where the text between
    the marker and [.tar] is [2019.4.243].  The Open MPI and MPICH detectors
    skip their markers. *)
Theorem detect_intel_version_keeps_marker :
  configparser.detectMpiImplem "file:///opt/intel/l_mpi_2019.4.243.tar.gz"
  = Some ("intel", "l_mpi_2019.4.243")
  /\ configparser.detectMpiImplem "file:///opt/src/openmpi-3.0.4.tar.gz"
     = Some ("openmpi", "3.0.4")
  /\ configparser.detectMpiImplem "file:///opt/src/mpich-3.3.tar.gz"
     = Some ("mpich", "3.3").
Proof. repeat split. Qed.

(** ** The detectors on well-formed locations *)

Lemma append_cons (c : ascii) (a b : string) :
  (String c a ++ b)%string = String c (a ++ b).
Proof. reflexivity. Qed.

Lemma length_append (a b : string) :
  String.length (a ++ b) = (String.length a + String.length b)%nat.
Proof.
  induction a as [|c a IH]; [reflexivity|].
  rewrite append_cons. simpl. rewrite IH. reflexivity.
Qed.

Lemma append_assoc (a b c : string) : ((a ++ b) ++ c)%string = (a ++ b ++ c)%string.
Proof.
  induction a as [|x a IH]; [reflexivity|].
  rewrite !append_cons, IH. reflexivity.
Qed.

Lemma prefix_append (sep b : string) : String.prefix sep (sep ++ b) = true.
Proof.
  induction sep as [|c sep IH].
  - change ("" ++ b)%string with b. destruct b; reflexivity.
  - rewrite append_cons. simpl.
    destruct (ascii_dec c c); [exact IH|contradiction].
Qed.

Lemma prefix_inv (sep : string) : forall s,
  String.prefix sep s = true -> exists b, s = (sep ++ b)%string.
Proof.
  induction sep as [|c sep IH]; intros s Hp.
  - exists s. reflexivity.
  - destruct s as [|d s]; [discriminate|]. simpl in Hp.
    destruct (ascii_dec c d) as [->|]; [|discriminate].
    destruct (IH s Hp) as [b ->]. exists b. reflexivity.
Qed.

Lemma substring_skip (a : string) n s :
  String.substring (String.length a) n (a ++ s) = String.substring 0 n s.
Proof.
  induction a as [|c a IH]; [reflexivity|].
  rewrite append_cons. simpl. exact IH.
Qed.

Lemma substring_take (b c : string) :
  String.substring 0 (String.length b) (b ++ c) = b.
Proof.
  induction b as [|x b IH].
  - change ("" ++ c)%string with c. destruct c; reflexivity.
  - rewrite append_cons. simpl. rewrite IH. reflexivity.
Qed.

(** [strings.Index] finds the first occurrence. *)
Lemma indexFrom_first sep : forall s i n,
  detector.firstAt s sep n -> strings.indexFrom i s sep = i + Z.of_nat n.
Proof.
  induction s as [|c s IH]; intros i n [(a & b & Hs & Ha) Hmin].
  - destruct a as [|x a]; [|rewrite append_cons in Hs; discriminate].
    change ("" ++ sep ++ b)%string with (sep ++ b)%string in Hs.
    destruct sep as [|y sep]; [|rewrite append_cons in Hs; discriminate].
    simpl in Ha. subst n. simpl. lia.
  - change (strings.indexFrom i (String c s) sep)
      with (if String.prefix sep (String c s) then i
            else strings.indexFrom (i + 1) s sep).
    destruct (String.prefix sep (String c s)) eqn:Hp.
    + apply prefix_inv in Hp as [b' Hb'].
      assert (n <= 0)%nat; [|lia].
      apply Hmin. exists "", b'. split; [exact Hb'|reflexivity].
    + destruct a as [|x a].
      * change ("" ++ sep ++ b)%string with (sep ++ b)%string in Hs.
        rewrite Hs, prefix_append in Hp. discriminate.
      * rewrite append_cons in Hs. injection Hs as -> ->. simpl in Ha. subst n.
        rewrite (IH (i + 1) (String.length a)); [lia|].
        split; [exists a, b; auto|].
        intros m (a' & b' & Hs' & <-).
        assert (S (String.length a) <= S (String.length a'))%nat; [|lia].
        apply Hmin. exists (String x a'), b'.
        rewrite append_cons, <- Hs'. auto.
Qed.

Lemma Index_first s sep n :
  detector.firstAt s sep n -> strings.Index s sep = Z.of_nat n.
Proof. intros H. unfold strings.Index. rewrite (indexFrom_first sep s 0 n H). lia. Qed.

(** The slice from the end of [a] over the length of [b]. *)
Lemma slice_middle (a b c : string) :
  strings.slice (a ++ b ++ c) (strings.len a) (strings.len a + strings.len b)
  = Some b.
Proof.
  unfold strings.slice, strings.len. rewrite !length_append.
  replace (0 <=? Z.of_nat (String.length a)) with true by (symmetry; apply Z.leb_le; lia).
  replace (Z.of_nat (String.length a) <=?
           Z.of_nat (String.length a) + Z.of_nat (String.length b))
    with true by (symmetry; apply Z.leb_le; lia).
  replace (Z.of_nat (String.length a) + Z.of_nat (String.length b) <=?
           Z.of_nat (String.length a + (String.length b + String.length c)))
    with true by (symmetry; apply Z.leb_le; lia).
  simpl. rewrite Nat2Z.id.
  replace (Z.to_nat (Z.of_nat (String.length a) + Z.of_nat (String.length b)
                     - Z.of_nat (String.length a)))
    with (String.length b) by lia.
  rewrite substring_skip, substring_take. reflexivity.
Qed.

(** A detector that skips [m1] of its marker [m1 ++ m2] answers, on a line
    whose first marker is followed by [v] and then by the first [.tar] of
    the line, with [m2 ++ v]. *)
Lemma detectVersion_between (m1 m2 pre v post : string) :
  let line := (pre ++ (m1 ++ m2) ++ v ++ ".tar" ++ post)%string in
  detector.firstAt line (m1 ++ m2) (String.length pre) ->
  detector.firstAt line ".tar"
    (String.length pre + String.length (m1 ++ m2) + String.length v) ->
  detector.detectVersion (m1 ++ m2) (strings.len m1) line = Some (m2 ++ v)%string.
Proof.
  intros line Hm Ht. unfold detector.detectVersion, strings.Contains.
  rewrite (Index_first _ _ _ Hm), (Index_first _ _ _ Ht).
  replace (0 <=? Z.of_nat (String.length pre)) with true by (symmetry; apply Z.leb_le; lia).
  replace (0 <=? Z.of_nat _) with true by (symmetry; apply Z.leb_le; lia).
  unfold strings.len.
  replace (Z.of_nat (String.length pre) + Z.of_nat (String.length m1) =? -1)
    with false by (symmetry; apply Z.eqb_neq; lia).
  replace (Z.of_nat _ =? -1) with false by (symmetry; apply Z.eqb_neq; lia).
  simpl negb. simpl andb. cbv iota.
  subst line.
  replace (pre ++ (m1 ++ m2) ++ v ++ ".tar" ++ post)%string
    with ((pre ++ m1) ++ (m2 ++ v) ++ (".tar" ++ post))%string
    by (rewrite !append_assoc; reflexivity).
  replace (Z.of_nat (String.length pre) + Z.of_nat (String.length m1))
    with (strings.len (pre ++ m1))
    by (unfold strings.len; rewrite length_append; lia).
  replace (Z.of_nat (String.length pre + String.length (m1 ++ m2) + String.length v))
    with (strings.len (pre ++ m1) + strings.len (m2 ++ v))
    by (unfold strings.len; rewrite !length_append; lia).
  apply slice_middle.
Qed.

(** [strings.Index] is exact: it answers [-1] when there is no occurrence,
    and the offset of the first occurrence otherwise. *)
Lemma indexFrom_exact sep : forall s i,
  (strings.indexFrom i s sep = -1 /\ forall n, ~ detector.occursAt s sep n)
  \/ exists n, strings.indexFrom i s sep = i + Z.of_nat n
               /\ detector.firstAt s sep n.
Proof.
  induction s as [|c s IH]; intros i.
  - destruct sep as [|y sep].
    + right. exists O. split; [simpl; lia|]. split; [exists "", ""; auto|lia].
    + left. split; [reflexivity|]. intros n (a & b & Hs & _).
      destruct a; [|rewrite append_cons in Hs; discriminate].
      change ("" ++ String y sep ++ b)%string with (String y sep ++ b)%string in Hs.
      rewrite append_cons in Hs. discriminate.
  - change (strings.indexFrom i (String c s) sep)
      with (if String.prefix sep (String c s) then i
            else strings.indexFrom (i + 1) s sep).
    destruct (String.prefix sep (String c s)) eqn:Hp.
    + right. exists O. split; [lia|]. split; [|lia].
      apply prefix_inv in Hp as [b Hb]. exists "", b. auto.
    + assert (Hnot0 : ~ detector.occursAt (String c s) sep 0).
      { intros (a & b & Hs & Ha). destruct a; [|discriminate].
        change ("" ++ sep ++ b)%string with (sep ++ b)%string in Hs.
        rewrite Hs, prefix_append in Hp. discriminate. }
      assert (Hshift : forall m, detector.occursAt (String c s) sep (S m) ->
                detector.occursAt s sep m).
      { intros m (a & b & Hs & Ha). destruct a as [|x a]; [discriminate|].
        rewrite append_cons in Hs. injection Hs as _ Hs. injection Ha as Ha.
        exists a, b. auto. }
      destruct (IH (i + 1)) as [[Hi Hno]|(n & Hi & (a & b & Hs & Ha) & Hmin)].
      * left. split; [exact Hi|]. intros [|m] Hocc; [auto|].
        apply (Hno m). auto.
      * right. exists (S n). split; [lia|]. split.
        -- exists (String c a), b. rewrite append_cons, <- Hs. simpl. auto.
        -- intros [|m] Hocc; [contradiction|].
           apply Hshift, Hmin in Hocc. lia.
Qed.

Lemma Index_firstAt s sep n :
  strings.Index s sep = Z.of_nat n -> detector.firstAt s sep n.
Proof.
  unfold strings.Index. intros Hi.
  destruct (indexFrom_exact sep s 0) as [[Hm _]|(m & Hm & Hf)]; [lia|].
  replace n with m by lia. exact Hf.
Qed.

Lemma Contains_false s sep n :
  strings.Contains s sep = false -> ~ detector.occursAt s sep n.
Proof.
  unfold strings.Contains, strings.Index. intros Hc Hocc.
  apply Z.leb_gt in Hc.
  destruct (indexFrom_exact sep s 0) as [[_ Hno]|(m & Hm & _)]; [|lia].
  apply (Hno n Hocc).
Qed.

(** The three detectors have the common shape. *)
Lemma detectOpenMPIVersion_shape line :
  configparser.detectOpenMPIVersion line = detector.detectVersion "openmpi-" 8 line.
Proof. reflexivity. Qed.

Lemma detectMPICHVersion_shape line :
  configparser.detectMPICHVersion line = detector.detectVersion "mpich-" 6 line.
Proof. reflexivity. Qed.

Lemma detectIntelMPIVersion_shape line :
  configparser.detectIntelMPIVersion line = detector.detectVersion "l_mpi_" 0 line.
Proof.
  unfold configparser.detectIntelMPIVersion, detector.detectVersion.
  rewrite Z.add_0_r. reflexivity.
Qed.

(** On a location [pre ++ "openmpi-" ++ v ++ ".tar" ++ post] in which these
    are the first marker and the first [.tar], and [v] is not empty, the
    detector answers Open MPI with the version [v]. *)
Lemma detect_openmpi_between (pre v post : string) :
  let line := (pre ++ "openmpi-" ++ v ++ ".tar" ++ post)%string in
  v <> "" ->
  detector.firstAt line "openmpi-" (String.length pre) ->
  detector.firstAt line ".tar" (String.length pre + 8 + String.length v) ->
  configparser.detectMpiImplem line = Some ("openmpi", v).
Proof.
  intros line Hv Hm Ht. unfold configparser.detectMpiImplem.
  assert (E : detector.detectVersion "openmpi-" 8 line = Some v)
    by exact (detectVersion_between "openmpi-" "" pre v post Hm Ht).
  rewrite detectOpenMPIVersion_shape, E. simpl.
  destruct (String.eqb_spec v ""); [contradiction|reflexivity].
Qed.

(** The same for MPICH, on a location without the Open MPI marker. *)
Lemma detect_mpich_between (pre v post : string) :
  let line := (pre ++ "mpich-" ++ v ++ ".tar" ++ post)%string in
  v <> "" ->
  strings.Contains line "openmpi-" = false ->
  detector.firstAt line "mpich-" (String.length pre) ->
  detector.firstAt line ".tar" (String.length pre + 6 + String.length v) ->
  configparser.detectMpiImplem line = Some ("mpich", v).
Proof.
  intros line Hv Ho Hm Ht. unfold configparser.detectMpiImplem.
  unfold configparser.detectOpenMPIVersion at 1. rewrite Ho. simpl.
  assert (E : detector.detectVersion "mpich-" 6 line = Some v)
    by exact (detectVersion_between "mpich-" "" pre v post Hm Ht).
  rewrite detectMPICHVersion_shape, E. simpl.
  destruct (String.eqb_spec v ""); [contradiction|reflexivity].
Qed.

(** For Intel MPI, on a location without the other two markers, the answer
    is the marker followed by [v], not [v]. *)
Lemma detect_intel_between (pre v post : string) :
  let line := (pre ++ "l_mpi_" ++ v ++ ".tar" ++ post)%string in
  strings.Contains line "openmpi-" = false ->
  strings.Contains line "mpich-" = false ->
  detector.firstAt line "l_mpi_" (String.length pre) ->
  detector.firstAt line ".tar" (String.length pre + 6 + String.length v) ->
  configparser.detectMpiImplem line = Some ("intel", ("l_mpi_" ++ v)%string).
Proof.
  intros line Ho Hc Hm Ht. unfold configparser.detectMpiImplem.
  unfold configparser.detectOpenMPIVersion at 1. rewrite Ho. simpl.
  unfold configparser.detectMPICHVersion at 1. rewrite Hc. simpl.
  assert (E : detector.detectVersion "l_mpi_" 0 line = Some ("l_mpi_" ++ v)%string)
    by exact (detectVersion_between "" "l_mpi_" pre v post Hm Ht).
  rewrite detectIntelMPIVersion_shape, E. reflexivity.
Qed.

(** * The model on concrete inputs *)

Example Index_examples :
  strings.Index "chicken" "ken" = 4
  /\ strings.Index "chicken" "dmr" = -1
  /\ strings.Index "chicken" "" = 0
  /\ strings.Index "" "a" = -1
  /\ strings.Index "a.tar.tar" ".tar" = 1.
Proof. repeat split. Qed.

Example slice_examples :
  strings.slice "openmpi-3.0.4.tar" 8 13 = Some "3.0.4"
  /\ strings.slice "openmpi-.tar" 8 8 = Some ""
  /\ strings.slice "abc" 2 1 = None
  /\ strings.slice "abc" 1 4 = None.
Proof. repeat split. Qed.

(** An empty version is "not detected"; so is a marker without [.tar]. *)
Example detect_examples :
  configparser.detectMpiImplem "openmpi-.tar" = Some ("", "")
  /\ configparser.detectMpiImplem "openmpi-3.0.4.tgz" = Some ("", "")
  /\ configparser.detectMpiImplem "http://www.mpich.org/static/downloads/3.3/mpich-3.3.tar.gz"
     = Some ("mpich", "3.3")
  /\ configparser.detectMpiImplem "mpich-openmpi-1.tar" = Some ("openmpi", "1").
Proof. repeat split. Qed.

(** [detect_openmpi_between] on the documented location. *)
Example detect_openmpi_between_release :
  configparser.detectMpiImplem
    ("https://download.open-mpi.org/release/open-mpi/v3.0/"
     ++ "openmpi-" ++ "3.0.4" ++ ".tar" ++ ".bz2")
  = Some ("openmpi", "3.0.4").
Proof.
  apply (detect_openmpi_between
           "https://download.open-mpi.org/release/open-mpi/v3.0/" "3.0.4" ".bz2").
  - discriminate.
  - apply Index_firstAt. reflexivity.
  - apply Index_firstAt. reflexivity.
Qed.

(** The aggregation of three iterations: pass, pass, fail is FAIL; three
    passes are PASS. *)
Example aggregation_examples :
  main.written
    (store.final
       (scripted.run [scripted.e12] (Some (scripted.sysCfg 3)) scripted.syConfig
          (scripted.start [scripted.passing "1"; scripted.passing "2";
                           scripted.failing "3"])))
  = [store.line (store.recordOf scripted.e12 store.FAIL "3")]
  /\ main.written
       (store.final
          (scripted.run [scripted.e12] (Some (scripted.sysCfg 3)) scripted.syConfig
             (scripted.start [scripted.passing "1"; scripted.passing "2";
                              scripted.passing "3"])))
     = [store.line (store.recordOf scripted.e12 store.PASS "3")].
Proof. split; reflexivity. Qed.

(** The matrix of two versions, run once each with a runner that always
    passes: four PASS lines. *)
Example matrix_run_example :
  length
    (main.written
       (store.final
          (scripted.run
             (main.getListExperiments matrix.alternating matrix.twoVersions)
             (Some (scripted.sysCfg 1)) scripted.syConfig (scripted.start []))))
  = 4%nat.
Proof. vm_compute. reflexivity. Qed.

(** A record line, byte for byte. *)
Example line_example :
  store.line (store.recordOf scripted.e12 store.PASS "ok")
  = String "3" (String "." (String "0" (String "." (String "4"
      (String "009" (String "3" (String "." (String "1" (String "." (String "0"
      (String "009" (String "P" (String "A" (String "S" (String "S"
      (String "009" (String "o" (String "k" (String "010" "")))))))))))))))))))%string.
Proof. reflexivity. Qed.

(** * Further properties of the detector *)

Lemma occursAt_bound s sep n :
  detector.occursAt s sep n -> (n + String.length sep <= String.length s)%nat.
Proof.
  intros (a & b & -> & <-). rewrite !length_append. lia.
Qed.

(** [strings.Index] answers [-1] or an offset inside the string. *)
Lemma Index_bounds s sep : -1 <= strings.Index s sep <= strings.len s.
Proof.
  unfold strings.Index, strings.len.
  destruct (indexFrom_exact sep s 0) as [[-> _]|(n & -> & Hocc & _)]; [lia|].
  apply occursAt_bound in Hocc. lia.
Qed.

Lemma Contains_firstAt s sep :
  strings.Contains s sep = true ->
  detector.firstAt s sep (Z.to_nat (strings.Index s sep)).
Proof.
  unfold strings.Contains. intros Hc. apply Z.leb_le in Hc.
  apply Index_firstAt. lia.
Qed.

Lemma Contains_absent s sep :
  (forall n, ~ detector.occursAt s sep n) -> strings.Contains s sep = false.
Proof.
  intros Hno. unfold strings.Contains, strings.Index.
  destruct (indexFrom_exact sep s 0) as [[-> _]|(n & _ & Hocc & _)]; [reflexivity|].
  destruct (Hno n Hocc).
Qed.

(** A detector of the common shape panics exactly when the line has the
    marker and [.tar], and the first [.tar] starts before the index at
    which the version would start. *)
Lemma detectVersion_panics marker skip line :
  0 <= skip ->
  detector.detectVersion marker skip line = None <->
  strings.Contains line marker = true
  /\ strings.Contains line ".tar" = true
  /\ strings.Index line ".tar" < strings.Index line marker + skip.
Proof.
  intros Hskip. unfold detector.detectVersion.
  pose proof (Index_bounds line ".tar") as Ht.
  destruct (strings.Contains line marker) eqn:Hm;
    [|split; [discriminate|intros [? _]; discriminate]].
  destruct (strings.Contains line ".tar") eqn:Hc;
    [|split; [discriminate|intros (_ & ? & _); discriminate]].
  unfold strings.Contains in Hm, Hc. apply Z.leb_le in Hm, Hc.
  replace (strings.Index line marker + skip =? -1) with false
    by (symmetry; apply Z.eqb_neq; lia).
  replace (strings.Index line ".tar" =? -1) with false
    by (symmetry; apply Z.eqb_neq; lia).
  simpl. unfold strings.slice.
  replace (0 <=? strings.Index line marker + skip) with true
    by (symmetry; apply Z.leb_le; lia).
  replace (strings.Index line ".tar" <=? strings.len line) with true
    by (symmetry; apply Z.leb_le; lia).
  rewrite andb_true_r. simpl.
  destruct (Z.leb_spec (strings.Index line marker + skip) (strings.Index line ".tar")).
  - split; [discriminate|]. intros (_ & _ & ?). lia.
  - split; [auto|reflexivity].
Qed.

(** Each of the three detectors panics exactly when the line has its marker
    and [.tar], and the first [.tar] starts before the index at which the
    version would start: 8 after the start of the first [openmpi-], 6 after
    the start of the first [mpich-], at the start of the first [l_mpi_]. *)
Theorem detectors_panic_exactly line :
  (configparser.detectOpenMPIVersion line = None <->
   strings.Contains line "openmpi-" = true
   /\ strings.Contains line ".tar" = true
   /\ strings.Index line ".tar" < strings.Index line "openmpi-" + 8)
  /\ (configparser.detectMPICHVersion line = None <->
      strings.Contains line "mpich-" = true
      /\ strings.Contains line ".tar" = true
      /\ strings.Index line ".tar" < strings.Index line "mpich-" + 6)
  /\ (configparser.detectIntelMPIVersion line = None <->
      strings.Contains line "l_mpi_" = true
      /\ strings.Contains line ".tar" = true
      /\ strings.Index line ".tar" < strings.Index line "l_mpi_").
Proof.
  rewrite detectOpenMPIVersion_shape, detectMPICHVersion_shape,
    detectIntelMPIVersion_shape.
  split; [apply detectVersion_panics; lia|].
  split; [apply detectVersion_panics; lia|].
  rewrite detectVersion_panics by lia. rewrite Z.add_0_r. reflexivity.
Qed.

(** What [detectMpiImplem] can answer: a panic, "not detected" (both
    strings empty), or one of the three names with a version that is not
    empty.  It never names an implementation without a version, nor gives a
    version without a name. *)
Theorem detectMpiImplem_answers line :
  configparser.detectMpiImplem line = None
  \/ configparser.detectMpiImplem line = Some ("", "")
  \/ exists version,
       version <> ""
       /\ (configparser.detectMpiImplem line = Some ("openmpi", version)
           \/ configparser.detectMpiImplem line = Some ("mpich", version)
           \/ configparser.detectMpiImplem line = Some ("intel", version)).
Proof.
  unfold configparser.detectMpiImplem.
  destruct (configparser.detectOpenMPIVersion line) as [v1|]; simpl; [|auto].
  destruct (String.eqb_spec v1 ""); simpl; [|right; right; eauto].
  destruct (configparser.detectMPICHVersion line) as [v2|]; simpl; [|auto].
  destruct (String.eqb_spec v2 ""); simpl; [|right; right; eauto].
  destruct (configparser.detectIntelMPIVersion line) as [v3|]; simpl; [|auto].
  destruct (String.eqb_spec v3 ""); simpl; [auto|right; right; eauto 6].
Qed.

Lemma append_nil_l (x : string) : ("" ++ x)%string = x.
Proof. reflexivity. Qed.

(** Two splits of one string at the same offset are the same split. *)
Lemma append_inv_length (a : string) : forall a' b b',
  (a ++ b)%string = (a' ++ b')%string ->
  String.length a = String.length a' ->
  a = a' /\ b = b'.
Proof.
  induction a as [|x a IH]; intros [|x' a'] b b' H Hlen; try discriminate.
  - auto.
  - rewrite !append_cons in H. injection H as -> H. injection Hlen as Hlen.
    destruct (IH a' b b' H Hlen) as [-> ->]. auto.
Qed.

(** [substring lo m s] is the part of [s] after its first [lo] bytes,
    [m] bytes long, when [s] is long enough. *)
Lemma substring_split : forall lo m s,
  (lo + m <= String.length s)%nat ->
  exists a c,
    s = (a ++ String.substring lo m s ++ c)%string
    /\ String.length a = lo
    /\ String.length (String.substring lo m s) = m.
Proof.
  induction lo as [|lo IHlo].
  - induction m as [|m IHm]; intros s Hlen.
    + exists "", s. destruct s; auto.
    + destruct s as [|x s]; [simpl in Hlen; lia|]. simpl in Hlen.
      destruct (IHm s ltac:(lia)) as (a & c & Hs & Ha & Hm).
      destruct a; [|discriminate]. rewrite append_nil_l in Hs.
      exists "", c. simpl. rewrite append_nil_l, append_cons, <- Hs.
      rewrite Hm. auto.
  - intros m s Hlen. destruct s as [|x s]; [simpl in Hlen; lia|]. simpl in Hlen.
    destruct (IHlo m s ltac:(lia)) as (a & c & Hs & Ha & Hm).
    exists (String x a), c. simpl. rewrite append_cons, <- Hs, Ha. auto.
Qed.

(** A slice expression that does not panic cuts the string in three. *)
Lemma slice_decompose s lo hi w :
  strings.slice s lo hi = Some w ->
  exists a c,
    s = (a ++ w ++ c)%string
    /\ strings.len a = lo
    /\ strings.len w = hi - lo.
Proof.
  unfold strings.slice, strings.len.
  destruct (Z.leb_spec 0 lo); [|discriminate].
  destruct (Z.leb_spec lo hi); [|discriminate].
  destruct (Z.leb_spec hi (Z.of_nat (String.length s))); [|discriminate].
  simpl. intros [= <-].
  destruct (substring_split (Z.to_nat lo) (Z.to_nat (hi - lo)) s ltac:(lia))
    as (a & c & Hs & Ha & Hm).
  exists a, c. rewrite Ha, Hm. split; [exact Hs|lia].
Qed.

(** A detector of the common shape that answers with a version [w] was
    given a line in which [w] runs from the start index up to the first
    [.tar]. *)
Lemma detectVersion_sound marker skip line w :
  0 <= skip ->
  detector.detectVersion marker skip line = Some w ->
  w <> "" ->
  exists a post,
    line = (a ++ w ++ ".tar" ++ post)%string
    /\ strings.len a = strings.Index line marker + skip
    /\ strings.Contains line marker = true
    /\ detector.firstAt line ".tar" (String.length a + String.length w).
Proof.
  intros Hskip Hd Hw. unfold detector.detectVersion in Hd.
  destruct (strings.Contains line marker) eqn:Hm; [|congruence].
  destruct (strings.Contains line ".tar") eqn:Hc; [|congruence].
  pose proof (Contains_firstAt _ _ Hc) as Hfirst.
  unfold strings.Contains in Hm, Hc. apply Z.leb_le in Hm, Hc.
  replace (strings.Index line marker + skip =? -1) with false in Hd
    by (symmetry; apply Z.eqb_neq; lia).
  replace (strings.Index line ".tar" =? -1) with false in Hd
    by (symmetry; apply Z.eqb_neq; lia).
  simpl in Hd. apply slice_decompose in Hd as (a & c & Hs & Ha & Hlw).
  unfold strings.len in Ha, Hlw.
  assert (Hn : Z.to_nat (strings.Index line ".tar")
               = (String.length a + String.length w)%nat) by lia.
  rewrite Hn in Hfirst.
  destruct Hfirst as [(a2 & post & Hs2 & Ha2) Hmin].
  assert (Hsplit : (a ++ w)%string = a2 /\ c = (".tar" ++ post)%string).
  { apply append_inv_length; [|rewrite length_append; lia].
    rewrite append_assoc, <- Hs. exact Hs2. }
  destruct Hsplit as [_ ->].
  exists a, post. split; [exact Hs|]. split; [exact Ha|].
  split; [reflexivity|].
  split; [|exact Hmin]. exists a2, post. auto.
Qed.

(** The same, for a detector that skips the whole of its marker: the line
    is cut at the first marker and at the first [.tar]. *)
Lemma detectVersion_sound_marker marker line w :
  detector.detectVersion marker (strings.len marker) line = Some w ->
  w <> "" ->
  exists pre post,
    line = (pre ++ marker ++ w ++ ".tar" ++ post)%string
    /\ detector.firstAt line marker (String.length pre)
    /\ detector.firstAt line ".tar"
         (String.length pre + String.length marker + String.length w).
Proof.
  intros Hd Hw.
  destruct (detectVersion_sound marker (strings.len marker) line w
              ltac:(unfold strings.len; lia) Hd Hw)
    as (a & post & Hs & Ha & Hm & Ht).
  pose proof (Contains_firstAt _ _ Hm) as Hfirst.
  unfold strings.Contains in Hm. apply Z.leb_le in Hm.
  destruct Hfirst as [(pre & b & Hs2 & Hpre) Hmin].
  assert (Hsplit : (pre ++ marker)%string = a
                   /\ b = (w ++ ".tar" ++ post)%string).
  { apply append_inv_length.
    - rewrite append_assoc, <- Hs2. exact Hs.
    - rewrite length_append. unfold strings.len in Ha. lia. }
  destruct Hsplit as [<- ->].
  exists pre, post. rewrite length_append in Ht.
  split; [exact Hs2|]. split; [|exact Ht].
  split; [|intros m Hocc; specialize (Hmin m Hocc); lia].
  exists pre, (w ++ ".tar" ++ post)%string. auto.
Qed.

(** The detector answers Open MPI with the version [v] exactly on the lines
    [pre ++ "openmpi-" ++ v ++ ".tar" ++ post] in which [v] is not empty and
    these occurrences of the marker and of [.tar] are the first ones of the
    line. *)
Theorem detect_openmpi_exactly line v :
  configparser.detectMpiImplem line = Some ("openmpi", v) <->
  v <> ""
  /\ exists pre post,
       line = (pre ++ "openmpi-" ++ v ++ ".tar" ++ post)%string
       /\ detector.firstAt line "openmpi-" (String.length pre)
       /\ detector.firstAt line ".tar" (String.length pre + 8 + String.length v).
Proof.
  split.
  - unfold configparser.detectMpiImplem.
    destruct (configparser.detectOpenMPIVersion line) as [v1|] eqn:Ho; simpl;
      [|discriminate].
    destruct (String.eqb_spec v1 "") as [E|E]; simpl.
    + destruct (configparser.detectMPICHVersion line) as [v2|]; simpl; [|discriminate].
      destruct (String.eqb v2 ""); simpl; [|discriminate].
      destruct (configparser.detectIntelMPIVersion line) as [v3|]; simpl; [|discriminate].
      destruct (String.eqb v3 ""); discriminate.
    + intros [= <-]. split; [exact E|].
      rewrite detectOpenMPIVersion_shape in Ho.
      exact (detectVersion_sound_marker "openmpi-" line v1 Ho E).
  - intros (Hv & pre & post & -> & Hm & Ht).
    exact (detect_openmpi_between pre v post Hv Hm Ht).
Qed.

(** The detector answers MPICH with the version [v] exactly on the lines
    [pre ++ "mpich-" ++ v ++ ".tar" ++ post], with [v] not empty and these
    the first marker and the first [.tar], on which the Open MPI detector
    finds nothing. *)
Theorem detect_mpich_exactly line v :
  configparser.detectMpiImplem line = Some ("mpich", v) <->
  v <> ""
  /\ configparser.detectOpenMPIVersion line = Some ""
  /\ exists pre post,
       line = (pre ++ "mpich-" ++ v ++ ".tar" ++ post)%string
       /\ detector.firstAt line "mpich-" (String.length pre)
       /\ detector.firstAt line ".tar" (String.length pre + 6 + String.length v).
Proof.
  split.
  - unfold configparser.detectMpiImplem.
    destruct (configparser.detectOpenMPIVersion line) as [v1|] eqn:Ho; simpl;
      [|discriminate].
    destruct (String.eqb_spec v1 "") as [->|E]; simpl; [|discriminate].
    destruct (configparser.detectMPICHVersion line) as [v2|] eqn:Hm; simpl;
      [|discriminate].
    destruct (String.eqb_spec v2 "") as [E2|E2]; simpl.
    + destruct (configparser.detectIntelMPIVersion line) as [v3|]; simpl; [|discriminate].
      destruct (String.eqb v3 ""); discriminate.
    + intros [= <-]. split; [exact E2|]. split; [reflexivity|].
      rewrite detectMPICHVersion_shape in Hm.
      exact (detectVersion_sound_marker "mpich-" line v2 Hm E2).
  - intros (Hv & Ho & pre & post & Hline & Hm & Ht).
    unfold configparser.detectMpiImplem. rewrite Ho. simpl.
    assert (E : detector.detectVersion "mpich-" 6 line = Some v).
    { subst line. exact (detectVersion_between "mpich-" "" pre v post Hm Ht). }
    rewrite detectMPICHVersion_shape, E. simpl.
    destruct (String.eqb_spec v ""); [contradiction|reflexivity].
Qed.

(** [.tar] cannot start inside [l_mpi_]: a text that starts with the marker
    and is cut before a [.tar] is cut after the marker. *)
Lemma intel_marker_first (b w post : string) :
  ("l_mpi_" ++ b)%string = (w ++ ".tar" ++ post)%string ->
  exists v, w = ("l_mpi_" ++ v)%string /\ b = (v ++ ".tar" ++ post)%string.
Proof.
  intros H.
  do 6 (destruct w as [|? w];
        [rewrite ?append_nil_l, ?append_cons in H; discriminate H|];
        rewrite ?append_cons in H; injection H as Hc H; subst).
  rewrite ?append_nil_l in H. exists w. split; [reflexivity|exact H].
Qed.

(** The detector answers Intel MPI exactly on the lines
    [pre ++ "l_mpi_" ++ v ++ ".tar" ++ post], these being the first marker
    and the first [.tar], on which the Open MPI and MPICH detectors find
    nothing; the version it gives is [l_mpi_] followed by [v]. *)
Theorem detect_intel_exactly line w :
  configparser.detectMpiImplem line = Some ("intel", w) <->
  configparser.detectOpenMPIVersion line = Some ""
  /\ configparser.detectMPICHVersion line = Some ""
  /\ exists pre v post,
       w = ("l_mpi_" ++ v)%string
       /\ line = (pre ++ "l_mpi_" ++ v ++ ".tar" ++ post)%string
       /\ detector.firstAt line "l_mpi_" (String.length pre)
       /\ detector.firstAt line ".tar" (String.length pre + 6 + String.length v).
Proof.
  split.
  - unfold configparser.detectMpiImplem.
    destruct (configparser.detectOpenMPIVersion line) as [v1|] eqn:Ho; simpl;
      [|discriminate].
    destruct (String.eqb_spec v1 "") as [->|E]; simpl; [|discriminate].
    destruct (configparser.detectMPICHVersion line) as [v2|] eqn:Hm; simpl;
      [|discriminate].
    destruct (String.eqb_spec v2 "") as [->|E2]; simpl; [|discriminate].
    destruct (configparser.detectIntelMPIVersion line) as [v3|] eqn:Hi; simpl;
      [|discriminate].
    destruct (String.eqb_spec v3 "") as [E3|E3]; simpl; [discriminate|].
    intros [= <-]. split; [reflexivity|]. split; [reflexivity|].
    rewrite detectIntelMPIVersion_shape in Hi.
    destruct (detectVersion_sound "l_mpi_" 0 line v3 ltac:(lia) Hi E3)
      as (a & post & Hs & Ha & Hc & Ht).
    pose proof (Contains_firstAt _ _ Hc) as Hfirst.
    unfold strings.Contains in Hc. apply Z.leb_le in Hc.
    assert (Hn : Z.to_nat (strings.Index line "l_mpi_") = String.length a)
      by (unfold strings.len in Ha; lia).
    rewrite Hn in Hfirst.
    destruct Hfirst as [(pre & b & Hs2 & Hpre) Hmin].
    assert (Hsplit : pre = a /\ ("l_mpi_" ++ b)%string = (v3 ++ ".tar" ++ post)%string).
    { apply append_inv_length; [|exact Hpre]. rewrite <- Hs2. exact Hs. }
    destruct Hsplit as [-> Hrest].
    apply intel_marker_first in Hrest as (v & -> & ->).
    exists a, v, post. rewrite length_append in Ht. simpl String.length in Ht.
    split; [reflexivity|]. split; [exact Hs2|].
    split; [split; [exists a, (v ++ ".tar" ++ post)%string; auto|exact Hmin]|].
    replace (String.length a + 6 + String.length v)%nat
      with (String.length a + S (S (S (S (S (S (String.length v)))))))%nat by lia.
    exact Ht.
  - intros (Ho & Hm & pre & v & post & -> & Hline & Hf & Ht).
    unfold configparser.detectMpiImplem. rewrite Ho. simpl. rewrite Hm. simpl.
    assert (E : detector.detectVersion "l_mpi_" 0 line = Some ("l_mpi_" ++ v)%string).
    { subst line. exact (detectVersion_between "" "l_mpi_" pre v post Hf Ht). }
    rewrite detectIntelMPIVersion_shape, E. reflexivity.
Qed.

(** A line in which [.tar] does not occur, or in which none of the three
    markers occurs, is not detected (and the detector does not panic). *)
Theorem detect_absent_undetected line :
  (forall n, ~ detector.occursAt line ".tar" n)
  \/ ((forall n, ~ detector.occursAt line "openmpi-" n)
      /\ (forall n, ~ detector.occursAt line "mpich-" n)
      /\ (forall n, ~ detector.occursAt line "l_mpi_" n)) ->
  configparser.detectMpiImplem line = Some ("", "").
Proof.
  intros [Ht|(Ho & Hm & Hi)].
  - apply detect_without_tar, Contains_absent, Ht.
  - apply detect_without_marker; apply Contains_absent; assumption.
Qed.

(** A file name without [.tar], and a [.tar] file of something else. *)
Lemma detect_absent_undetected_witness :
  configparser.detectMpiImplem "openmpi-3.0.4.tgz" = Some ("", "")
  /\ configparser.detectMpiImplem "https://example.org/hwloc-2.0.tar.gz" = Some ("", "").
Proof.
  split.
  - apply detect_absent_undetected. left.
    intros n. apply Contains_false. reflexivity.
  - apply detect_absent_undetected. right.
    repeat split; intros n; apply Contains_false; reflexivity.
Defined.

(** * Further properties of the configuration parser *)

(** The loop over a run of entries that all detect to [implem]: they are
    stored, and the loop goes on with [implem] fixed. *)
Lemma parseEntries_detected_prefix implem rest pre : forall c,
  entries.allDetect implem pre ->
  configparser.MPIImplem c = "" \/ configparser.MPIImplem c = implem ->
  configparser.parseEntries (pre ++ rest) c =
  configparser.parseEntries rest
    {| configparser.filename := configparser.filename c;
       configparser.MPIImplem :=
         match pre with [] => configparser.MPIImplem c | _ => implem end;
       configparser.MpiMap := detector.stored pre (configparser.MpiMap c) |}.
Proof.
  induction pre as [|kv pre IH]; intros c Hall Hc.
  - destruct c; reflexivity.
  - destruct (Hall kv (or_introl eq_refl)) as (v & Hd).
    change ((kv :: pre) ++ rest)%list with (kv :: (pre ++ rest))%list.
    rewrite (parseEntries_detected _ _ _ _ _ Hd).
    destruct (detects_version _ _ _ Hd) as [_ Hv].
    assert (Hi : implem <> "") by apply Hd.
    assert (Hrest : entries.allDetect implem pre)
      by (intros kv' Hin; apply Hall; right; assumption).
    unfold detector.stored. simpl fold_left. rewrite Hv.
    destruct (String.eqb_spec (configparser.MPIImplem c) "") as [E|E].
    + rewrite IH; [|exact Hrest|right; reflexivity]. simpl.
      destruct pre; reflexivity.
    + destruct Hc as [Hc|Hc]; [contradiction|].
      rewrite Hc, String.eqb_refl. simpl negb. cbv iota.
      rewrite IH; [|exact Hrest|right; reflexivity]. simpl.
      destruct pre; reflexivity.
Qed.

(** A binding of the stored map was there before or comes from an entry. *)
Lemma stored_lookup_inv v url kvs : forall m,
  detector.stored kvs m !! v = Some url ->
  m !! v = Some url
  \/ exists kv, In kv kvs /\ detector.versionOf (kv.Value kv) = v /\ kv.Value kv = url.
Proof.
  induction kvs as [|kv kvs IH]; intros m Hl; [left; exact Hl|].
  unfold detector.stored in Hl. simpl in Hl. fold (detector.stored kvs) in Hl.
  apply IH in Hl as [Hl|(kv' & Hin & Hv & Hu)].
  - destruct (decide (detector.versionOf (kv.Value kv) = v)) as [E|E].
    + rewrite E, lookup_insert_eq in Hl. injection Hl as <-.
      right. exists kv. split; [left; reflexivity|auto].
    + rewrite lookup_insert_ne in Hl by exact E. left. exact Hl.
  - right. exists kv'. split; [right; exact Hin|auto].
Qed.

(** The keys of the stored map: those there before and the versions of the
    entries. *)
Lemma stored_dom kvs : forall m,
  dom (detector.stored kvs m) = dom m ∪ list_to_set (entries.versions kvs).
Proof.
  induction kvs as [|kv kvs IH]; intros m.
  - simpl. by rewrite (right_id_L ∅ (∪)).
  - unfold detector.stored. simpl. fold (detector.stored kvs).
    rewrite IH, dom_insert_L.
    by rewrite (comm_L (∪) {[_]} (dom m)), <- (assoc_L (∪)).
Qed.

(** With versions that are all different, the stored map does not depend on
    the order of the entries. *)
Lemma stored_perm kvs kvs' :
  kvs ≡ₚ kvs' -> NoDup (entries.versions kvs) ->
  forall m, detector.stored kvs m = detector.stored kvs' m.
Proof.
  induction 1 as [|x l l' Hp IH|x y l|l l' l'' Hp1 IH1 Hp2 IH2]; intros Hnd m.
  - reflexivity.
  - unfold detector.stored. simpl. apply IH.
    simpl in Hnd. apply NoDup_cons in Hnd as [_ Hnd]. exact Hnd.
  - unfold detector.stored. simpl. f_equal.
    simpl in Hnd. apply NoDup_cons in Hnd as [Hxy _].
    apply insert_insert_ne. intros E. apply Hxy. rewrite E. left.
  - rewrite IH1 by exact Hnd. apply IH2.
    unfold entries.versions in *. rewrite <- Hp1. exact Hnd.
Qed.

Section ParseMore.
Variable LoadKeyValueConfig : string -> list kv.KV + string.
Local Abbreviation Parse := (configparser.Parse LoadKeyValueConfig).

(** [Parse] stops at the first entry that is not detected, whatever follows
    it, and the error carries the value of that entry. *)
Theorem parse_first_undetected file implem pre kv post :
  LoadKeyValueConfig file = inl (pre ++ kv :: post)%list ->
  entries.allDetect implem pre ->
  detector.undetected (kv.Value kv) ->
  Parse file = configparser.Err (configparser.ErrDetect (kv.Value kv)).
Proof.
  intros Hload Hpre Hu. unfold configparser.Parse. rewrite Hload.
  rewrite (parseEntries_detected_prefix implem) by (simpl; auto).
  apply parseEntries_undetected. exact Hu.
Qed.

(** [Parse] panics when the detector panics on an entry that comes after
    detected entries of one implementation only. *)
Theorem parse_panics_with_detector file implem pre kv post :
  LoadKeyValueConfig file = inl (pre ++ kv :: post)%list ->
  entries.allDetect implem pre ->
  configparser.detectMpiImplem (kv.Value kv) = None ->
  Parse file = configparser.Panic.
Proof.
  intros Hload Hpre Hn. unfold configparser.Parse. rewrite Hload.
  rewrite (parseEntries_detected_prefix implem) by (simpl; auto).
  simpl. rewrite Hn. reflexivity.
Qed.

(** The conflict error names the implementation of the entries before the
    conflict first and the implementation of the first entry that differs
    second, whatever follows. *)
Theorem parse_first_conflict file implem pre kv post other version :
  LoadKeyValueConfig file = inl (pre ++ kv :: post)%list ->
  pre <> [] ->
  entries.allDetect implem pre ->
  detector.detects (kv.Value kv) other version ->
  other <> implem ->
  Parse file = configparser.Err (configparser.ErrConflict implem other).
Proof.
  intros Hload Hne Hpre Hd Hoi. unfold configparser.Parse. rewrite Hload.
  rewrite (parseEntries_detected_prefix implem) by (simpl; auto).
  rewrite (parseEntries_detected _ _ _ _ _ Hd). simpl.
  destruct pre as [|kv0 pre]; [contradiction|].
  destruct (Hpre kv0 (or_introl eq_refl)) as (v0 & _ & Hi).
  destruct (String.eqb_spec implem ""); [contradiction|].
  destruct (String.eqb_spec implem other) as [E|E]; [congruence|reflexivity].
Qed.

(** [Parse] succeeds exactly when all entries are detected as one and the
    same implementation. *)
Theorem parse_succeeds_exactly file kvs :
  LoadKeyValueConfig file = inl kvs ->
  (exists c, Parse file = configparser.Ok c)
  <-> exists implem, entries.allDetect implem kvs.
Proof.
  intros Hload. unfold configparser.Parse. rewrite Hload. split.
  - intros [c Hp]. exists (configparser.MPIImplem c).
    apply parseEntries_ok in Hp as [_ Hall]. exact Hall.
  - intros [implem Hall]. eexists.
    apply (parseEntries_complete implem); [exact Hall|left; reflexivity].
Qed.

(** The configuration that [Parse] returns: it carries the name of the
    file; the keys of its map are exactly the versions detected from the
    entries; and every location in the map is the value of an entry and is
    detected as the implementation of the configuration, with the version
    under which it is stored. *)
Theorem parse_map_invariant file kvs c :
  LoadKeyValueConfig file = inl kvs ->
  Parse file = configparser.Ok c ->
  configparser.filename c = file
  /\ dom (configparser.MpiMap c) = list_to_set (entries.versions kvs)
  /\ forall version url,
       configparser.MpiMap c !! version = Some url ->
       (exists kv, In kv kvs /\ kv.Value kv = url)
       /\ configparser.detectMpiImplem url
          = Some (configparser.MPIImplem c, version).
Proof.
  intros Hload Hp. unfold configparser.Parse in Hp. rewrite Hload in Hp.
  pose proof (parseEntries_ok _ _ _ Hp) as [_ Hall].
  rewrite (parseEntries_complete (configparser.MPIImplem c)) in Hp
    by (simpl; auto).
  injection Hp as Hc.
  assert (Hf : configparser.filename c = file) by (rewrite <- Hc; reflexivity).
  assert (Hm : configparser.MpiMap c = detector.stored kvs ∅)
    by (rewrite <- Hc; reflexivity).
  rewrite Hm. split; [exact Hf|]. split.
  - rewrite stored_dom, dom_empty_L. by rewrite (left_id_L ∅ (∪)).
  - intros version url Hl.
    apply stored_lookup_inv in Hl as [Hl|(kv & Hin & Hv & Hu)];
      [rewrite lookup_empty in Hl; discriminate|].
    split; [exists kv; auto|].
    destruct (Hall kv Hin) as (v & Hd).
    destruct (detects_version _ _ _ Hd) as [_ Hv'].
    rewrite <- Hu, <- Hv, Hv'. apply Hd.
Qed.

End ParseMore.

(** When the versions of the entries are all different, a successful
    [Parse] gives the same configuration for every order of the entries. *)
Theorem parse_order_irrelevant load1 load2 file kvs kvs' c :
  load1 file = inl kvs ->
  load2 file = inl kvs' ->
  kvs ≡ₚ kvs' ->
  NoDup (entries.versions kvs) ->
  configparser.Parse load1 file = configparser.Ok c ->
  configparser.Parse load2 file = configparser.Ok c.
Proof.
  intros H1 H2 Hperm Hnd Hp. unfold configparser.Parse in *.
  rewrite H1 in Hp. rewrite H2.
  pose proof (parseEntries_ok _ _ _ Hp) as [_ Hall].
  rewrite (parseEntries_complete (configparser.MPIImplem c)) in Hp
    by (simpl; auto).
  rewrite (parseEntries_complete (configparser.MPIImplem c)).
  - rewrite <- Hp. simpl. rewrite (stored_perm kvs kvs' Hperm Hnd).
    destruct kvs as [|kv kvs].
    + apply Permutation_nil in Hperm. subst kvs'. reflexivity.
    + destruct kvs' as [|kv' kvs']; [|reflexivity].
      symmetry in Hperm. apply Permutation_nil in Hperm. discriminate.
  - intros kv Hin. apply Hall.
    apply list_elem_of_In. rewrite Hperm. apply list_elem_of_In. exact Hin.
  - simpl. auto.
Qed.

(** A file whose second entry is not detected and whose third entry is of
    another implementation: the error is that of the second entry. *)
Lemma parse_first_undetected_witness :
  configparser.Parse
    (sample.loading [sample.ompi304; sample.junk; sample.mpich33])
    "etc/openmpi.conf"
  = configparser.Err (configparser.ErrDetect "junk").
Proof.
  apply (parse_first_undetected
           (sample.loading [sample.ompi304; sample.junk; sample.mpich33])
           "etc/openmpi.conf" "openmpi"
           [sample.ompi304] sample.junk [sample.mpich33]).
  - reflexivity.
  - intros kv [<-|[]]. eexists. split; [reflexivity|discriminate].
  - reflexivity.
Defined.

(** A file whose second entry has a [.tar] before its marker. *)
Lemma parse_panics_with_detector_witness :
  configparser.Parse
    (sample.loading
       [sample.ompi304;
        {| kv.Key := "mirror";
           kv.Value := "https://example.org/mirror.tar/openmpi-3.1.0.tar.gz" |}])
    "etc/openmpi.conf"
  = configparser.Panic.
Proof.
  apply (parse_panics_with_detector
           (sample.loading
              [sample.ompi304;
               {| kv.Key := "mirror";
                  kv.Value := "https://example.org/mirror.tar/openmpi-3.1.0.tar.gz" |}])
           "etc/openmpi.conf" "openmpi"
           [sample.ompi304]
           {| kv.Key := "mirror";
              kv.Value := "https://example.org/mirror.tar/openmpi-3.1.0.tar.gz" |}
           []).
  - reflexivity.
  - intros kv [<-|[]]. eexists. split; [reflexivity|discriminate].
  - reflexivity.
Defined.

(** Two Open MPI entries, then MPICH, then Open MPI again. *)
Lemma parse_first_conflict_witness :
  configparser.Parse
    (sample.loading
       [sample.ompi304; sample.ompi310; sample.mpich33; sample.ompi304mirror])
    "etc/openmpi.conf"
  = configparser.Err (configparser.ErrConflict "openmpi" "mpich").
Proof.
  apply (parse_first_conflict
           (sample.loading
              [sample.ompi304; sample.ompi310; sample.mpich33; sample.ompi304mirror])
           "etc/openmpi.conf" "openmpi"
           [sample.ompi304; sample.ompi310] sample.mpich33 [sample.ompi304mirror]
           "mpich" "3.3").
  - reflexivity.
  - discriminate.
  - intros kv [<-|[<-|[]]]; eexists; (split; [reflexivity|discriminate]).
  - split; [reflexivity|discriminate].
  - discriminate.
Defined.

Lemma parse_succeeds_exactly_witness :
  exists c,
    configparser.Parse (sample.loading [sample.ompi304; sample.ompi310])
      "etc/openmpi.conf"
    = configparser.Ok c.
Proof.
  apply (proj2 (parse_succeeds_exactly
                  (sample.loading [sample.ompi304; sample.ompi310])
                  "etc/openmpi.conf" [sample.ompi304; sample.ompi310] eq_refl)).
  exists "openmpi".
  intros kv [<-|[<-|[]]]; eexists; (split; [reflexivity|discriminate]).
Defined.

Lemma parse_map_invariant_witness :
  configparser.filename matrix.twoVersions = "etc/openmpi.conf"
  /\ dom (configparser.MpiMap matrix.twoVersions)
     = list_to_set (entries.versions [sample.ompi304; sample.ompi310])
  /\ forall version url,
       configparser.MpiMap matrix.twoVersions !! version = Some url ->
       (exists kv, In kv [sample.ompi304; sample.ompi310] /\ kv.Value kv = url)
       /\ configparser.detectMpiImplem url
          = Some (configparser.MPIImplem matrix.twoVersions, version).
Proof.
  exact (parse_map_invariant
           (sample.loading [sample.ompi304; sample.ompi310])
           "etc/openmpi.conf" [sample.ompi304; sample.ompi310]
           matrix.twoVersions eq_refl eq_refl).
Defined.

Lemma parse_order_irrelevant_witness :
  configparser.Parse (sample.loading [sample.ompi310; sample.ompi304])
    "etc/openmpi.conf"
  = configparser.Ok matrix.twoVersions.
Proof.
  apply (parse_order_irrelevant
           (sample.loading [sample.ompi304; sample.ompi310])
           (sample.loading [sample.ompi310; sample.ompi304])
           "etc/openmpi.conf"
           [sample.ompi304; sample.ompi310] [sample.ompi310; sample.ompi304]).
  - reflexivity.
  - reflexivity.
  - apply perm_swap.
  - change (NoDup ["3.0.4"; "3.1.0"]).
    apply NoDup_cons. split; [|apply NoDup_singleton].
    intros Hin. apply list_elem_of_In in Hin. destruct Hin as [|[]]; discriminate.
  - reflexivity.
Defined.

(** * Further properties of the batch runner *)

Section RunMore.
Context {World : Type}.
Variable expRun : exp.Config -> sys.Config -> sy.MPIToolConfig ->
                  World -> (bool * results.Result * syexec.Result) * World.
Variable OpenResultsFile : string -> World -> bool * World.
Variable WriteString : string -> World -> option string * World.
Variable Sync : World -> option string * World.

Local Abbreviation runExperiment := (main.runExperiment expRun).
Local Abbreviation iterations := (main.iterations expRun).
Local Abbreviation experiment := (main.experiment expRun WriteString Sync).
Local Abbreviation experimentsLoop := (main.experimentsLoop expRun WriteString Sync).
Local Abbreviation run := (main.run expRun OpenResultsFile WriteString Sync).
Local Abbreviation attempts := (store.attempts expRun).

(** A loop of iterations that ends normally has made [n] calls, none with
    an error; it has appended their results and written nothing. *)
Lemma iterations_done n e cfg sy : forall l st l' st',
  iterations n e cfg sy l st = main.Done l' st' ->
  exists new,
    main.newResults l' = (main.newResults l ++ new)%list
    /\ length new = n
    /\ main.success l' = main.success l && forallb results.Pass new
    /\ main.failure l' = main.failure l
    /\ main.newRes l' = List.last new (main.newRes l)
    /\ main.written st' = main.written st.
Proof.
  induction n as [|n IH]; intros l st l' st' Hrun; simpl in Hrun.
  - injection Hrun as <- <-. exists []. simpl.
    rewrite app_nil_r, andb_true_r. auto 6.
  - unfold main.bind in Hrun.
    rewrite (iteration_step expRun) in Hrun.
    destruct (runExperiment e cfg sy (main.world st)) as [[res [t|]] w];
      simpl in Hrun; [discriminate|].
    apply IH in Hrun as (new & Hnr & Hlen & Hs & Hf & Hn & Hw).
    simpl in *. exists (res :: new). simpl.
    rewrite Hnr, <- app_assoc, Hlen, Hs, andb_assoc, Hf, Hn, Hw.
    repeat split; auto. symmetry. apply last_cons_default.
Qed.

(** An experiment that ends normally has made [Nrun] iterations (none when
    [Nrun] is not positive) and appended its one record. *)
Lemma experiment_done e cfg sy nr st l st' :
  experiment e cfg sy nr st = main.Done l st' ->
  exists new,
    main.newResults l = (nr ++ new)%list
    /\ length new = Z.to_nat (sys.Nrun cfg)
    /\ main.written st'
       = (main.written st ++ [store.line (batch.verdictOf e new)])%list.
Proof.
  unfold main.experiment, main.bind. intros Hrun.
  destruct (iterations _ _ _ _ _ _) as [l1 st1|] eqn:Hit; [|discriminate].
  apply iterations_done in Hit as (new & Hnr & Hlen & Hs & Hf & Hn & Hw).
  simpl in Hnr, Hs, Hf, Hn.
  rewrite (record_step WriteString Sync e l1 st1 Hf) in Hrun. cbv zeta in Hrun.
  destruct (WriteString _ (main.world st1)) as [[t|] w1]; [discriminate|].
  destruct (Sync w1) as [[t|] w2]; [discriminate|].
  injection Hrun as <- <-. exists new. simpl.
  rewrite Hw, Hs, Hn. auto.
Qed.

(** An experiment that ends the process has appended nothing, or its one
    record (when the sync fails). *)
Lemma experiment_fatal e cfg sy nr st m st' :
  experiment e cfg sy nr st = main.Fatal m st' ->
  main.written st' = main.written st
  \/ exists r, batch.identity r = batch.identityOf e
       /\ main.written st' = (main.written st ++ [store.line r])%list.
Proof.
  unfold main.experiment, main.bind. intros Hrun.
  pose proof (iterations_quiet expRun Sync (Z.to_nat (sys.Nrun cfg)) e cfg sy
    {| main.success := true; main.failure := false; main.newRes := results.zero;
       main.err := None; main.newResults := nr |} st) as Hq.
  destruct (iterations _ _ _ _ _ _) as [l1 st1|m1 st1].
  - destruct Hq as [Hw Hf]. simpl in Hf.
    rewrite (record_step WriteString Sync e l1 st1 Hf) in Hrun. cbv zeta in Hrun.
    destruct (WriteString _ (main.world st1)) as [[t|] w1].
    + injection Hrun as _ <-. left. exact Hw.
    + destruct (Sync w1) as [[t|] w2]; [|discriminate].
      injection Hrun as _ <-. right. eexists. simpl. rewrite Hw.
      split; [|reflexivity]. reflexivity.
  - injection Hrun as _ <-. left. exact Hq.
Qed.

(** The loop over the experiments: on a normal end, one record for every
    experiment, in order, [Nrun] results for each, and all records PASS
    exactly when all results pass; on a fatal end, records for the first
    experiments of the batch, in order. *)
Lemma experimentsLoop_outcome es cfg sy : forall nr st,
  match experimentsLoop es cfg sy nr st with
  | main.Done rs st' =>
      exists recs new,
        rs = (nr ++ new)%list
        /\ length new = (Z.to_nat (sys.Nrun cfg) * length es)%nat
        /\ main.written st' = (main.written st ++ map store.line recs)%list
        /\ map batch.identity recs = map batch.identityOf es
        /\ (Forall (fun r => results.Pass r = true) new
            <-> Forall (fun r => store.status r = store.PASS) recs)
  | main.Fatal _ st' =>
      exists recs,
        main.written st' = (main.written st ++ map store.line recs)%list
        /\ map batch.identity recs `prefix_of` map batch.identityOf es
  end.
Proof.
  induction es as [|e es IH]; intros nr st.
  - simpl. exists [], []. rewrite !app_nil_r, Nat.mul_0_r. simpl.
    repeat split; auto.
  - simpl. unfold main.bind.
    destruct (experiment e cfg sy nr st) as [l st1|m st1] eqn:He.
    + apply experiment_done in He as (new1 & Hnr & Hlen1 & Hw1).
      specialize (IH (main.newResults l) st1). revert IH.
      destruct (experimentsLoop es cfg sy (main.newResults l) st1) as [rs st2|m st2];
        intros IH.
      * destruct IH as (recs & new & -> & Hlen & Hw & Hid & Hpass).
        exists (batch.verdictOf e new1 :: recs), (new1 ++ new)%list.
        rewrite Hnr, <- app_assoc, length_app, Hlen1, Hlen, Hw, Hw1, <- app_assoc.
        simpl. rewrite Hid. repeat split; auto; try lia.
        -- intros Hall. apply Forall_app in Hall as [H1 H2].
           constructor; [|apply Hpass; exact H2].
           unfold batch.verdictOf. simpl.
           replace (forallb results.Pass new1) with true; [reflexivity|].
           symmetry. apply forallb_forall. intros r Hin.
           rewrite List.Forall_forall in H1. auto.
        -- intros Hall. apply Forall_cons_1 in Hall as [H1 H2].
           apply Forall_app. split; [|apply Hpass; exact H2].
           unfold batch.verdictOf in H1. simpl in H1.
           destruct (forallb results.Pass new1) eqn:E; [|discriminate].
           rewrite forallb_forall in E. apply List.Forall_forall. exact E.
      * destruct IH as (recs & Hw & Hid).
        exists (batch.verdictOf e new1 :: recs).
        rewrite Hw, Hw1, <- app_assoc. simpl. split; [reflexivity|].
        apply prefix_cons. exact Hid.
    + apply experiment_fatal in He as [Hw|(r & Hid & Hw)].
      * exists []. simpl. rewrite app_nil_r. split; [exact Hw|apply prefix_nil].
      * exists [r]. simpl. rewrite Hid. split; [exact Hw|].
        apply prefix_cons, prefix_nil.
Qed.

(** In whatever way [run] ends, the lines it has appended are the records of
    the first experiments of the batch, one each, in the order of the batch.
    When it returns, every experiment has its record, and the results
    returned are [Nrun] for each experiment (none when [Nrun] is not
    positive). *)
Theorem run_records_in_order es sysCfg sy st :
  match run es sysCfg sy st with
  | main.Done rs st' =>
      exists cfg recs,
        sysCfg = Some cfg
        /\ main.written st' = (main.written st ++ map store.line recs)%list
        /\ map batch.identity recs = map batch.identityOf es
        /\ length rs = (Z.to_nat (sys.Nrun cfg) * length es)%nat
  | main.Fatal _ st' =>
      exists recs,
        main.written st' = (main.written st ++ map store.line recs)%list
        /\ map batch.identity recs `prefix_of` map batch.identityOf es
  end.
Proof.
  assert (Hnil : exists recs : list store.ResultRecord,
             main.written st = (main.written st ++ map store.line recs)%list
             /\ map batch.identity recs `prefix_of` map batch.identityOf es).
  { exists []. simpl. rewrite app_nil_r. split; [reflexivity|apply prefix_nil]. }
  unfold main.run. destruct sysCfg as [cfg|]; [|exact Hnil].
  destruct (String.eqb (sys.OutputFile cfg) ""); [exact Hnil|].
  unfold main.bind, main.call.
  destruct (OpenResultsFile (sys.OutputFile cfg) (main.world st)) as [[|] w];
    cbv beta iota delta [negb]; [|exact Hnil].
  generalize (experimentsLoop_outcome es cfg sy []
                {| main.world := w; main.written := main.written st |}).
  destruct (experimentsLoop es cfg sy [] _) as [rs st'|m st']; intros H.
  - destruct H as (recs & new & -> & Hlen & Hw & Hid & _).
    exists cfg, recs. simpl in *. auto.
  - exact H.
Qed.

(** When [run] returns, all the records it has appended are PASS exactly
    when all the results it returns pass. *)
Theorem run_all_pass_exactly es sysCfg sy st :
  match run es sysCfg sy st with
  | main.Done rs st' =>
      exists recs,
        main.written st' = (main.written st ++ map store.line recs)%list
        /\ length recs = length es
        /\ (Forall (fun r => results.Pass r = true) rs
            <-> Forall (fun r => store.status r = store.PASS) recs)
  | main.Fatal _ _ => True
  end.
Proof.
  unfold main.run. destruct sysCfg as [cfg|]; [|exact I].
  destruct (String.eqb (sys.OutputFile cfg) ""); [exact I|].
  unfold main.bind, main.call.
  destruct (OpenResultsFile (sys.OutputFile cfg) (main.world st)) as [[|] w];
    cbv beta iota delta [negb]; [|exact I].
  generalize (experimentsLoop_outcome es cfg sy []
                {| main.world := w; main.written := main.written st |}).
  destruct (experimentsLoop es cfg sy [] _) as [rs st'|m st']; intros H; [|exact I].
  destruct H as (recs & new & -> & Hlen & Hw & Hid & Hpass).
  exists recs. simpl in *. split; [exact Hw|]. split; [|exact Hpass].
  rewrite <- (length_map batch.identity recs), Hid. apply length_map.
Qed.

End RunMore.

Section RunFailures.
Context {World : Type}.
Variable expRun : exp.Config -> sys.Config -> sy.MPIToolConfig ->
                  World -> (bool * results.Result * syexec.Result) * World.
Variable WriteString : string -> World -> option string * World.
Variable Sync : World -> option string * World.

Local Abbreviation runExperiment := (main.runExperiment expRun).
Local Abbreviation iterations := (main.iterations expRun).
Local Abbreviation experiment := (main.experiment expRun WriteString Sync).
Local Abbreviation attempts := (store.attempts expRun).

(** The world after one more attempt. *)
Lemma attempts_S n e cfg sy w :
  (attempts (S n) e cfg sy w).2
  = (attempts n e cfg sy (runExperiment e cfg sy w).2).2.
Proof.
  simpl. destruct (runExperiment e cfg sy w) as [r w1]. simpl.
  destruct (attempts n e cfg sy w1). reflexivity.
Qed.

(** The loop of iterations ends the process at the first answer of the
    runner that carries an error, in the world that this call leaves. *)
Lemma iterations_error n e cfg sy : forall l st oks r t rest w1,
  attempts n e cfg sy (main.world st) = ((oks ++ (r, Some t) :: rest)%list, w1) ->
  Forall (fun o => o.2 = None) oks ->
  iterations n e cfg sy l st
  = main.Fatal (main.FatalExperiment t)
      {| main.world := (attempts (S (length oks)) e cfg sy (main.world st)).2;
         main.written := main.written st |}.
Proof.
  induction n as [|n IH]; intros l st oks r t rest w1 Hatt Hok.
  - simpl in Hatt. destruct oks; discriminate.
  - rewrite attempts_S. simpl in Hatt. simpl main.iterations. unfold main.bind.
    rewrite (iteration_step expRun).
    destruct (runExperiment e cfg sy (main.world st)) as [r0 w0].
    destruct (attempts n e cfg sy w0) as [rs w2] eqn:Hrs.
    injection Hatt as Hl <-. simpl snd.
    destruct oks as [|o oks]; simpl in Hl; injection Hl as -> ->.
    + reflexivity.
    + apply Forall_cons_1 in Hok as [Ho Hok]. cbv zeta. rewrite Ho.
      cbv beta iota.
      rewrite (IH _ {| main.world := w0; main.written := main.written st |}
                 oks r t rest w2 Hrs Hok).
      reflexivity.
Qed.

(** An execution error in any iteration of an experiment ends the process:
    no later iteration is made (the world is the one left by the call that
    failed), and no record of the experiment is written. *)
Theorem experiment_exec_error e cfg sy nr st oks r t rest w1 :
  attempts (Z.to_nat (sys.Nrun cfg)) e cfg sy (main.world st)
  = ((oks ++ (r, Some t) :: rest)%list, w1) ->
  Forall (fun o => o.2 = None) oks ->
  experiment e cfg sy nr st
  = main.Fatal (main.FatalExperiment t)
      {| main.world := (attempts (S (length oks)) e cfg sy (main.world st)).2;
         main.written := main.written st |}.
Proof.
  intros Hatt Hok. unfold main.experiment, main.bind.
  rewrite (iterations_error _ e cfg sy _ st oks r t rest w1 Hatt Hok).
  reflexivity.
Qed.

(** A failure of the results file ends the process.  When the write of the
    record fails, nothing is appended; when the write succeeds and the sync
    fails, the line has been appended. *)
Theorem experiment_file_failure e cfg sy nr st outs w1 :
  attempts (Z.to_nat (sys.Nrun cfg)) e cfg sy (main.world st) = (outs, w1) ->
  Forall (fun o => o.2 = None) outs ->
  (forall t w2,
      WriteString (store.line (batch.verdictOf e (map fst outs))) w1 = (Some t, w2) ->
      experiment e cfg sy nr st
      = main.Fatal (main.FatalWrite t)
          {| main.world := w2; main.written := main.written st |})
  /\ (forall t w2 w3,
        WriteString (store.line (batch.verdictOf e (map fst outs))) w1 = (None, w2) ->
        Sync w2 = (Some t, w3) ->
        experiment e cfg sy nr st
        = main.Fatal (main.FatalSync t)
            {| main.world := w3;
               main.written :=
                 main.written st
                 ++ [store.line (batch.verdictOf e (map fst outs))] |}).
Proof.
  intros Hatt Hok.
  destruct (iterations_complete expRun _ e cfg sy
              {| main.success := true; main.failure := false;
                 main.newRes := results.zero; main.err := None;
                 main.newResults := nr |} st outs w1 Hatt Hok)
    as (l & Hrun & Hs & Hf & Hn & Hnr).
  simpl in Hs, Hf, Hn, Hnr.
  assert (Hline : store.recordOf e
                    (if main.success l then store.PASS else store.FAIL)
                    (results.Note (main.newRes l))
                  = batch.verdictOf e (map fst outs)).
  { unfold batch.verdictOf. rewrite Hs, Hn.
    replace (forallb results.Pass (map fst outs))
      with (forallb (fun o : results.Result * option string => results.Pass o.1) outs);
      [reflexivity|].
    clear. induction outs as [|o outs IHo]; [reflexivity|]. simpl.
    rewrite IHo. reflexivity. }
  split.
  - intros t w2 Hw. unfold main.experiment, main.bind. rewrite Hrun.
    rewrite (record_step WriteString Sync e l _ Hf). cbv zeta.
    rewrite Hline. simpl main.world. rewrite Hw. reflexivity.
  - intros t w2 w3 Hw Hsync. unfold main.experiment, main.bind. rewrite Hrun.
    rewrite (record_step WriteString Sync e l _ Hf). cbv zeta.
    rewrite Hline. simpl main.world. rewrite Hw, Hsync. reflexivity.
Qed.

End RunFailures.

Section RunFlag.
Context {World : Type}.
Variable expRun1 expRun2 : exp.Config -> sys.Config -> sy.MPIToolConfig ->
                           World -> (bool * results.Result * syexec.Result) * World.
Variable OpenResultsFile : string -> World -> bool * World.
Variable WriteString : string -> World -> option string * World.
Variable Sync : World -> option string * World.

(** The two runners agree on everything but the boolean they return
    first. *)
Hypothesis agree : forall e cfg sy w,
  (expRun1 e cfg sy w).1.1.2 = (expRun2 e cfg sy w).1.1.2
  /\ (expRun1 e cfg sy w).1.2 = (expRun2 e cfg sy w).1.2
  /\ (expRun1 e cfg sy w).2 = (expRun2 e cfg sy w).2.

Lemma runExperiment_flag e cfg sy w :
  main.runExperiment expRun1 e cfg sy w = main.runExperiment expRun2 e cfg sy w.
Proof.
  unfold main.runExperiment. specialize (agree e cfg sy w).
  destruct (expRun1 e cfg sy w) as [[[p1 r1] x1] w1].
  destruct (expRun2 e cfg sy w) as [[[p2 r2] x2] w2].
  simpl in agree. destruct agree as (-> & -> & ->). reflexivity.
Qed.

Lemma iterations_flag n e cfg sy : forall l st,
  main.iterations expRun1 n e cfg sy l st = main.iterations expRun2 n e cfg sy l st.
Proof.
  induction n as [|n IH]; intros l st; [reflexivity|].
  simpl. unfold main.bind. rewrite !iteration_step, runExperiment_flag.
  destruct (main.runExperiment expRun2 e cfg sy (main.world st)) as [[res [t|]] w];
    simpl; [reflexivity|apply IH].
Qed.

Lemma experimentsLoop_flag es cfg sy : forall nr st,
  main.experimentsLoop expRun1 WriteString Sync es cfg sy nr st
  = main.experimentsLoop expRun2 WriteString Sync es cfg sy nr st.
Proof.
  induction es as [|e es IH]; intros nr st; [reflexivity|].
  simpl. unfold main.experiment, main.bind.
  rewrite iterations_flag.
  destruct (main.iterations expRun2 _ e cfg sy _ st) as [l st1|]; [|reflexivity].
  destruct (main.record WriteString Sync e l st1) as [[] st2|]; [|reflexivity].
  unfold main.ret. apply IH.
Qed.

(** The boolean that [exp.Run] returns first has no effect on [run]: the
    tuple assignment in [runExperiment] overwrites it with the [Pass] field
    of the result returned second.  Two runners that differ only in that
    boolean give the same outcome, records and results. *)
Theorem run_ignores_returned_flag es sysCfg sy st :
  main.run expRun1 OpenResultsFile WriteString Sync es sysCfg sy st
  = main.run expRun2 OpenResultsFile WriteString Sync es sysCfg sy st.
Proof.
  unfold main.run. destruct sysCfg as [cfg|]; [|reflexivity].
  destruct (String.eqb (sys.OutputFile cfg) ""); [reflexivity|].
  unfold main.bind, main.call.
  destruct (OpenResultsFile (sys.OutputFile cfg) (main.world st)) as [[|] w];
    cbv beta iota delta [negb]; [|reflexivity].
  apply experimentsLoop_flag.
Qed.

End RunFlag.

(** An execution error in the second of three iterations. *)
Lemma experiment_exec_error_witness :
  main.experiment scripted.expRun scripted.WriteString scripted.Sync
    scripted.e11 (scripted.sysCfg 3) scripted.syConfig []
    (scripted.start [scripted.passing "ok";
                     scripted.erroring "" "cannot launch";
                     scripted.passing "ok"])
  = main.Fatal
      (main.FatalExperiment
         "failure during the execution of the experiment: cannot launch")
      {| main.world := {| scripted.script := [scripted.passing "ok"];
                          scripted.ran := [scripted.e11; scripted.e11] |};
         main.written := [] |}.
Proof.
  exact (experiment_exec_error scripted.expRun scripted.WriteString scripted.Sync
           scripted.e11 (scripted.sysCfg 3) scripted.syConfig []
           (scripted.start [scripted.passing "ok";
                            scripted.erroring "" "cannot launch";
                            scripted.passing "ok"])
           [((scripted.passing "ok").1.2, None)]
           (scripted.erroring "" "cannot launch").1.2
           "failure during the execution of the experiment: cannot launch"
           [((scripted.passing "ok").1.2, None)]
           {| scripted.script := [];
              scripted.ran := [scripted.e11; scripted.e11; scripted.e11] |}
           eq_refl ltac:(repeat constructor)).
Defined.

(** A disk that takes no write, and a disk that takes the write but not the
    sync, after two passing iterations. *)
Lemma experiment_file_failure_witness :
  main.experiment flaky.expRun flaky.WriteString flaky.Sync
    scripted.e12 (scripted.sysCfg 2) scripted.syConfig [] (flaky.start 0 0)
  = main.Fatal (main.FatalWrite "no space left on device")
      {| main.world := {| flaky.goodWrites := 0; flaky.goodSyncs := 0;
                          flaky.calls := 2 |};
         main.written := [] |}
  /\ main.experiment flaky.expRun flaky.WriteString flaky.Sync
       scripted.e12 (scripted.sysCfg 2) scripted.syConfig [] (flaky.start 1 0)
     = main.Fatal (main.FatalSync "input/output error")
         {| main.world := {| flaky.goodWrites := 0; flaky.goodSyncs := 0;
                             flaky.calls := 2 |};
            main.written :=
              [store.line (store.recordOf scripted.e12 store.PASS "ok")] |}.
Proof.
  split.
  - apply (proj1 (experiment_file_failure flaky.expRun flaky.WriteString flaky.Sync
                    scripted.e12 (scripted.sysCfg 2) scripted.syConfig []
                    (flaky.start 0 0)
                    [((scripted.passing "ok").1.2, None);
                     ((scripted.passing "ok").1.2, None)]
                    {| flaky.goodWrites := 0; flaky.goodSyncs := 0; flaky.calls := 2 |}
                    eq_refl ltac:(repeat constructor))).
    reflexivity.
  - apply (proj2 (experiment_file_failure flaky.expRun flaky.WriteString flaky.Sync
                    scripted.e12 (scripted.sysCfg 2) scripted.syConfig []
                    (flaky.start 1 0)
                    [((scripted.passing "ok").1.2, None);
                     ((scripted.passing "ok").1.2, None)]
                    {| flaky.goodWrites := 1; flaky.goodSyncs := 0; flaky.calls := 2 |}
                    eq_refl ltac:(repeat constructor))
             "input/output error"
             {| flaky.goodWrites := 0; flaky.goodSyncs := 0; flaky.calls := 2 |}).
    + reflexivity.
    + reflexivity.
Defined.

(** The scripted runner and the one that returns the opposite flag. *)
Lemma run_ignores_returned_flag_witness :
  main.run flipped.expRun scripted.OpenResultsFile scripted.WriteString
    scripted.Sync [scripted.e11; scripted.e12] (Some (scripted.sysCfg 2))
    scripted.syConfig
    (scripted.start [scripted.passing "a"; scripted.failing "b"])
  = main.run scripted.expRun scripted.OpenResultsFile scripted.WriteString
      scripted.Sync [scripted.e11; scripted.e12] (Some (scripted.sysCfg 2))
      scripted.syConfig
      (scripted.start [scripted.passing "a"; scripted.failing "b"]).
Proof.
  apply (run_ignores_returned_flag flipped.expRun scripted.expRun).
  intros e cfg sy w. unfold flipped.expRun.
  destruct (scripted.expRun e cfg sy w) as [[[pass res] execRes] w']. auto.
Defined.

(** * Further properties of the experiment matrix *)

Lemma outerLoop_exact rangeOrder config todo : forall k experiments,
  main.outerLoop rangeOrder config k todo experiments
  = (experiments
     ++ concat (imap (fun j host =>
                        main.newExperiment config host
                          <$> rangeOrder (S (k + j)) (configparser.MpiMap config))
                     todo))%list.
Proof.
  induction todo as [|host todo IH]; intros k experiments; simpl.
  - by rewrite app_nil_r.
  - rewrite IH, innerLoop_spec, <- app_assoc, Nat.add_0_r.
    do 3 f_equal. apply imap_ext. intros j x _. simpl.
    by rewrite Nat.add_succ_r.
Qed.

(** The experiments are listed host by host: for the [k]-th entry that the
    outer [range] visits comes the block of its experiments, one for every
    entry that the inner [range] of that turn visits, in that order.  This
    holds whatever the iteration orders are. *)
Theorem getListExperiments_host_major rangeOrder config :
  main.getListExperiments rangeOrder config
  = concat (imap (fun k host =>
                    main.newExperiment config host
                      <$> rangeOrder (S k) (configparser.MpiMap config))
                 (rangeOrder 0%nat (configparser.MpiMap config))).
Proof.
  unfold main.getListExperiments. rewrite outerLoop_exact. reflexivity.
Qed.

(** What a successful [Parse] has checked and stored. *)
Lemma parse_ok_stored load file kvs c :
  load file = inl kvs ->
  configparser.Parse load file = configparser.Ok c ->
  entries.allDetect (configparser.MPIImplem c) kvs
  /\ configparser.MpiMap c = detector.stored kvs ∅.
Proof.
  intros Hload Hp. unfold configparser.Parse in Hp. rewrite Hload in Hp.
  pose proof (parseEntries_ok _ _ _ Hp) as [_ Hall].
  split; [exact Hall|].
  rewrite (parseEntries_complete (configparser.MPIImplem c)) in Hp
    by (simpl; auto).
  injection Hp as Hc. rewrite <- Hc. reflexivity.
Qed.

Section ParseThenMatrix.
Variable LoadKeyValueConfig : string -> list kv.KV + string.
Variable rangeOrder : nat -> gmap string string -> list (string * string).
Hypothesis rangeOrder_perm : forall n m, rangeOrder n m ≡ₚ map_to_list m.

Lemma getListExperiments_product config :
  main.getListExperiments rangeOrder config
  ≡ₚ (map_to_list (configparser.MpiMap config)
      ≫= fun host =>
           main.newExperiment config host
             <$> map_to_list (configparser.MpiMap config)).
Proof.
  unfold main.getListExperiments.
  rewrite (outerLoop_spec rangeOrder rangeOrder_perm). simpl.
  rewrite rangeOrder_perm. reflexivity.
Qed.

(** From a file to its matrix.  The experiments built from the
    configuration that [Parse] returns are [d * d], for [d] the number of
    different versions detected from the entries (the number of entries
    when their versions are all different).  In each of them the host and
    the container carry the implementation of the file, and the location
    of each is detected as that implementation with the version it is
    paired with. *)
Theorem parse_then_matrix file kvs c :
  LoadKeyValueConfig file = inl kvs ->
  configparser.Parse LoadKeyValueConfig file = configparser.Ok c ->
  let d := size (list_to_set (entries.versions kvs) : gset string) in
  length (main.getListExperiments rangeOrder c) = (d * d)%nat
  /\ (NoDup (entries.versions kvs) -> d = length kvs)
  /\ forall e, e ∈ main.getListExperiments rangeOrder c ->
       mpi.ID (exp.HostMPI e) = configparser.MPIImplem c
       /\ mpi.ID (exp.ContainerMPI e) = configparser.MPIImplem c
       /\ configparser.detectMpiImplem (mpi.URL (exp.HostMPI e))
          = Some (configparser.MPIImplem c, mpi.Version (exp.HostMPI e))
       /\ configparser.detectMpiImplem (mpi.URL (exp.ContainerMPI e))
          = Some (configparser.MPIImplem c, mpi.Version (exp.ContainerMPI e)).
Proof.
  intros Hload Hp d.
  destruct (parse_ok_stored _ _ _ _ Hload Hp) as [Hall Hm].
  assert (Hd : size (configparser.MpiMap c) = d).
  { subst d. rewrite <- size_dom, Hm, stored_dom, dom_empty_L.
    by rewrite (left_id_L ∅ (∪)). }
  assert (Hurl : forall v u, (v, u) ∈ map_to_list (configparser.MpiMap c) ->
            configparser.detectMpiImplem u = Some (configparser.MPIImplem c, v)).
  { intros v u Hin. apply elem_of_map_to_list in Hin. rewrite Hm in Hin.
    apply stored_lookup_inv in Hin as [Hin|(kv & Hin & Hv & Hu)];
      [rewrite lookup_empty in Hin; discriminate|].
    destruct (Hall kv Hin) as (v' & Hd').
    destruct (detects_version _ _ _ Hd') as [_ Hv'].
    rewrite <- Hu, <- Hv, Hv'. apply Hd'. }
  split; [|split].
  - rewrite getListExperiments_product, product_length, length_map_to_list, Hd.
    reflexivity.
  - intros Hnd. subst d. rewrite size_list_to_set by exact Hnd.
    unfold entries.versions. apply length_map.
  - intros e He. rewrite getListExperiments_product in He.
    apply list_elem_of_bind in He as ([v1 u1] & He & H1).
    apply list_elem_of_fmap in He as ([v2 u2] & -> & H2).
    simpl. repeat split; auto.
Qed.

End ParseThenMatrix.

(** The file of two Open MPI versions, and its four experiments. *)
Lemma parse_then_matrix_witness :
  length (main.getListExperiments matrix.alternating matrix.twoVersions)
  = (size (list_to_set (entries.versions [sample.ompi304; sample.ompi310])
           : gset string)
     * size (list_to_set (entries.versions [sample.ompi304; sample.ompi310])
             : gset string))%nat
  /\ forall e,
       e ∈ main.getListExperiments matrix.alternating matrix.twoVersions ->
       configparser.detectMpiImplem (mpi.URL (exp.HostMPI e))
       = Some ("openmpi", mpi.Version (exp.HostMPI e)).
Proof.
  assert (Hperm : forall n m, matrix.alternating n m ≡ₚ map_to_list m).
  { intros n m. unfold matrix.alternating.
    destruct (Nat.even n); [done|apply reverse_Permutation]. }
  destruct (parse_then_matrix
              (sample.loading [sample.ompi304; sample.ompi310])
              matrix.alternating Hperm "etc/openmpi.conf"
              [sample.ompi304; sample.ompi310] matrix.twoVersions
              eq_refl eq_refl)
    as (Hlen & _ & Hall).
  split; [exact Hlen|].
  intros e He. apply (Hall e He).
Defined.

(** * The implementation of a configuration *)

(** The detector names one of three implementations. *)
Lemma detects_named line implem version :
  detector.detects line implem version ->
  implem = "openmpi" \/ implem = "mpich" \/ implem = "intel".
Proof.
  intros [Hd Hi]. revert Hd. unfold configparser.detectMpiImplem.
  destruct (configparser.detectOpenMPIVersion line) as [v1|]; simpl; [|discriminate].
  destruct (String.eqb v1 ""); simpl; [|intros [= <- _]; auto].
  destruct (configparser.detectMPICHVersion line) as [v2|]; simpl; [|discriminate].
  destruct (String.eqb v2 ""); simpl; [|intros [= <- _]; auto].
  destruct (configparser.detectIntelMPIVersion line) as [v3|]; simpl; [|discriminate].
  destruct (String.eqb v3 ""); simpl; intros [= <- _]; [contradiction|auto].
Qed.

(** The configuration that [Parse] returns for a file with at least one
    entry names Open MPI, MPICH or Intel MPI, and its map is not empty; for
    a file without entries the name is empty and so is the map. *)
Theorem parse_implementation_named load file kvs c :
  load file = inl kvs ->
  configparser.Parse load file = configparser.Ok c ->
  (kvs = []
   /\ configparser.MPIImplem c = ""
   /\ configparser.MpiMap c = ∅)
  \/ (kvs <> []
      /\ (configparser.MPIImplem c = "openmpi"
          \/ configparser.MPIImplem c = "mpich"
          \/ configparser.MPIImplem c = "intel")
      /\ configparser.MpiMap c <> ∅).
Proof.
  intros Hload Hp.
  destruct (parse_ok_stored _ _ _ _ Hload Hp) as [Hall Hm].
  destruct kvs as [|kv kvs].
  - left. unfold configparser.Parse in Hp. rewrite Hload in Hp.
    injection Hp as <-. auto.
  - right. split; [discriminate|].
    destruct (Hall kv (or_introl eq_refl)) as (v & Hd).
    split; [exact (detects_named _ _ _ Hd)|].
    intros Hempty.
    assert (Hin : detector.versionOf (kv.Value kv)
                  ∈ dom (configparser.MpiMap c)).
    { rewrite Hm, stored_dom. apply elem_of_union_r.
      apply elem_of_list_to_set. simpl. left. }
    rewrite Hempty, dom_empty_L in Hin. by apply not_elem_of_empty in Hin.
Qed.

(** The file of two Open MPI versions. *)
Lemma parse_implementation_named_witness :
  (configparser.MPIImplem matrix.twoVersions = "openmpi"
   \/ configparser.MPIImplem matrix.twoVersions = "mpich"
   \/ configparser.MPIImplem matrix.twoVersions = "intel")
  /\ configparser.MpiMap matrix.twoVersions <> ∅.
Proof.
  destruct (parse_implementation_named
              (sample.loading [sample.ompi304; sample.ompi310])
              "etc/openmpi.conf" [sample.ompi304; sample.ompi310]
              matrix.twoVersions eq_refl eq_refl)
    as [(Hnil & _)|(_ & Hname & Hmap)]; [discriminate Hnil|].
  split; [exact Hname|exact Hmap].
Defined.

(** * A file that mixes implementations *)

(** Reading the entries in order against the implementation [implem]:
    either they are all detected as [implem], or there is a first entry
    that is not, on which the detector panics, detects nothing, or detects
    another implementation. *)
Lemma entries_first_stop implem kvs :
  entries.allDetect implem kvs
  \/ exists pre kv post,
       kvs = (pre ++ kv :: post)%list
       /\ entries.allDetect implem pre
       /\ (configparser.detectMpiImplem (kv.Value kv) = None
           \/ detector.undetected (kv.Value kv)
           \/ exists other version,
                detector.detects (kv.Value kv) other version /\ other <> implem).
Proof.
  induction kvs as [|kv kvs IH].
  - left. intros kv [].
  - destruct (detect_trichotomy (kv.Value kv)) as [Hn|[Hu|(i & v & Hd)]].
    + right. exists [], kv, kvs. split; [reflexivity|].
      split; [intros ? []|auto].
    + right. exists [], kv, kvs. split; [reflexivity|].
      split; [intros ? []|auto].
    + destruct (String.eqb_spec i implem) as [->|Hne].
      * destruct IH as [Hall|(pre & kv' & post & -> & Hpre & Hstop)].
        -- left. intros kv' [<-|Hin]; [exists v; exact Hd|apply Hall; exact Hin].
        -- right. exists (kv :: pre), kv', post. split; [reflexivity|].
           split; [|exact Hstop].
           intros kv'' [<-|Hin]; [exists v; exact Hd|apply Hpre; exact Hin].
      * right. exists [], kv, kvs. split; [reflexivity|].
        split; [intros ? []|]. right. right. exists i, v. auto.
Qed.

Section ParseConflict.
Variable LoadKeyValueConfig : string -> list kv.KV + string.
Local Abbreviation Parse := (configparser.Parse LoadKeyValueConfig).

(** The three ways in which the loop of [Parse] stops at the entry [kv]
    that follows the entries [pre], all detected as [implem]. *)
Lemma parse_stops_at file implem pre kv post :
  LoadKeyValueConfig file = inl (pre ++ kv :: post)%list ->
  entries.allDetect implem pre ->
  (configparser.detectMpiImplem (kv.Value kv) = None ->
   Parse file = configparser.Panic)
  /\ (detector.undetected (kv.Value kv) ->
      Parse file = configparser.Err (configparser.ErrDetect (kv.Value kv)))
  /\ (forall other version,
        pre <> [] ->
        detector.detects (kv.Value kv) other version ->
        other <> implem ->
        Parse file = configparser.Err (configparser.ErrConflict implem other)).
Proof.
  intros Hload Hpre. unfold configparser.Parse. rewrite Hload.
  rewrite (parseEntries_detected_prefix implem) by (simpl; auto).
  split; [|split].
  - intros Hn. simpl. rewrite Hn. reflexivity.
  - intros Hu. apply parseEntries_undetected. exact Hu.
  - intros other version Hne Hd Hoi.
    rewrite (parseEntries_detected _ _ _ _ _ Hd). simpl.
    destruct pre as [|kv0 pre]; [contradiction|].
    destruct (Hpre kv0 (or_introl eq_refl)) as (v0 & _ & Hi).
    destruct (String.eqb_spec implem ""); [contradiction|].
    destruct (String.eqb_spec implem other) as [E|E]; [congruence|reflexivity].
Qed.

(** C5, as the code has it.  [Parse] reads the entries in order and stops at
    the first one that is not a detected entry of the implementation of the
    entries before it.  So, for a file with two entries that detect to
    different implementations, in whatever order:
    - [Parse] returns no configuration, and its outcome is decided at that
      first entry: the conflict error, naming the implementation of the
      entries before it and then the one that differs, when the entry is
      detected; the detection error of the entry when it is not detected;
      a panic when the detector panics on it;
    - in particular the outcome is the conflict error whenever the entries
      before the first entry of another implementation are all detected,
      whatever follows that entry.
    Every configuration [Parse] returns has one implementation, to which
    every entry detects. *)
Theorem parse_single_implementation file kvs :
  LoadKeyValueConfig file = inl kvs ->
  (forall kv1 kv2 a va b vb,
      In kv1 kvs -> In kv2 kvs ->
      detector.detects (kv.Value kv1) a va ->
      detector.detects (kv.Value kv2) b vb ->
      a <> b ->
      (forall c, Parse file <> configparser.Ok c)
      /\ exists pre kv post implem,
           kvs = (pre ++ kv :: post)%list
           /\ entries.allDetect implem pre
           /\ ((pre <> []
                /\ exists other version,
                     detector.detects (kv.Value kv) other version
                     /\ other <> implem
                     /\ Parse file
                        = configparser.Err (configparser.ErrConflict implem other))
               \/ (detector.undetected (kv.Value kv)
                   /\ Parse file
                      = configparser.Err (configparser.ErrDetect (kv.Value kv)))
               \/ (configparser.detectMpiImplem (kv.Value kv) = None
                   /\ Parse file = configparser.Panic)))
  /\ (forall pre kv post implem other version,
        kvs = (pre ++ kv :: post)%list ->
        pre <> [] ->
        entries.allDetect implem pre ->
        detector.detects (kv.Value kv) other version ->
        other <> implem ->
        Parse file = configparser.Err (configparser.ErrConflict implem other))
  /\ (forall c,
        Parse file = configparser.Ok c ->
        forall kv, In kv kvs ->
          exists version,
            detector.detects (kv.Value kv) (configparser.MPIImplem c) version).
Proof.
  intros Hload.
  assert (Hsound : forall c,
            Parse file = configparser.Ok c ->
            forall kv, In kv kvs ->
              exists version,
                detector.detects (kv.Value kv) (configparser.MPIImplem c) version).
  { intros c Hp. unfold configparser.Parse in Hp. rewrite Hload in Hp.
    apply parseEntries_ok in Hp as [_ Hall]. exact Hall. }
  split; [|split; [|exact Hsound]].
  - intros kv1 kv2 a va b vb Hin1 Hin2 Hd1 Hd2 Hab.
    assert (Hmixed : forall implem, ~ entries.allDetect implem kvs).
    { intros implem Hall.
      destruct (Hall kv1 Hin1) as (v1 & H1). destruct (Hall kv2 Hin2) as (v2 & H2).
      destruct (detects_functional _ _ _ _ _ Hd1 H1) as [Ea _].
      destruct (detects_functional _ _ _ _ _ Hd2 H2) as [Eb _].
      apply Hab. congruence. }
    split.
    { intros c Hp. apply (Hmixed (configparser.MPIImplem c)). exact (Hsound c Hp). }
    destruct kvs as [|kv0 rest]; [destruct Hin1|].
    destruct (detect_trichotomy (kv.Value kv0)) as [Hn|[Hu|(i & v & Hd)]].
    + exists [], kv0, rest, a. split; [reflexivity|]. split; [intros ? []|].
      right. right. split; [exact Hn|].
      apply (proj1 (parse_stops_at file a [] kv0 rest Hload ltac:(intros ? [])) Hn).
    + exists [], kv0, rest, a. split; [reflexivity|]. split; [intros ? []|].
      right. left. split; [exact Hu|].
      apply (proj1 (proj2 (parse_stops_at file a [] kv0 rest Hload
                             ltac:(intros ? []))) Hu).
    + destruct (entries_first_stop i rest)
        as [Hall|(pre & kv & post & Hrest & Hpre & Hstop)].
      * destruct (Hmixed i).
        intros kv' [<-|Hin]; [exists v; exact Hd|apply Hall; exact Hin].
      * assert (Hpre' : entries.allDetect i (kv0 :: pre)).
        { intros kv' [<-|Hin]; [exists v; exact Hd|apply Hpre; exact Hin]. }
        assert (Hload' : LoadKeyValueConfig file
                         = inl ((kv0 :: pre) ++ kv :: post)%list)
          by (rewrite Hload, Hrest; reflexivity).
        destruct (parse_stops_at file i (kv0 :: pre) kv post Hload' Hpre')
          as (Hpanic & Hundet & Hconf).
        exists (kv0 :: pre), kv, post, i.
        split; [rewrite Hrest; reflexivity|]. split; [exact Hpre'|].
        destruct Hstop as [Hn|[Hu|(other & version & Hdo & Hoi)]].
        -- right. right. auto.
        -- right. left. auto.
        -- left. split; [discriminate|]. exists other, version.
           split; [exact Hdo|]. split; [exact Hoi|].
           apply (Hconf other version); [discriminate|exact Hdo|exact Hoi].
  - intros pre kv post implem other version Hk Hne Hpre Hd Hoi.
    rewrite Hk in Hload.
    apply (proj2 (proj2 (parse_stops_at file implem pre kv post Hload Hpre))
             other version Hne Hd Hoi).
Qed.

End ParseConflict.

(** C5 at concrete entries: Open MPI then MPICH then an entry that is not
    detected, and MPICH then Open MPI; the conflict error in both, each
    naming first the implementation met first. *)
Lemma parse_single_implementation_witness :
  configparser.Parse
    (sample.loading [sample.ompi304; sample.mpich33; sample.junk])
    "etc/openmpi.conf"
  = configparser.Err (configparser.ErrConflict "openmpi" "mpich")
  /\ configparser.Parse
       (sample.loading [sample.mpich33; sample.ompi304])
       "etc/openmpi.conf"
     = configparser.Err (configparser.ErrConflict "mpich" "openmpi").
Proof.
  assert (Ho : detector.detects (kv.Value sample.ompi304) "openmpi" "3.0.4")
    by (split; [reflexivity|discriminate]).
  assert (Hm : detector.detects (kv.Value sample.mpich33) "mpich" "3.3")
    by (split; [reflexivity|discriminate]).
  split.
  - apply (proj1 (proj2 (parse_single_implementation
                           (sample.loading
                              [sample.ompi304; sample.mpich33; sample.junk])
                           "etc/openmpi.conf"
                           [sample.ompi304; sample.mpich33; sample.junk] eq_refl))
             [sample.ompi304] sample.mpich33 [sample.junk] "openmpi" "mpich" "3.3").
    + reflexivity.
    + discriminate.
    + intros kv [<-|[]]. eexists. exact Ho.
    + exact Hm.
    + discriminate.
  - apply (proj1 (proj2 (parse_single_implementation
                           (sample.loading [sample.mpich33; sample.ompi304])
                           "etc/openmpi.conf"
                           [sample.mpich33; sample.ompi304] eq_refl))
             [sample.mpich33] sample.ompi304 [] "mpich" "openmpi" "3.0.4").
    + reflexivity.
    + discriminate.
    + intros kv [<-|[]]. eexists. exact Hm.
    + exact Ho.
    + discriminate.
Defined.

(** * The flag returned by the runner *)

(** C6 on the code.  One iteration in which [exp.Run] returns the flag
    [false] (the iteration did not pass) with a result whose [Pass] field is
    set, and no error: the record written is PASS, not FAIL.  With the flag
    [true] and the field not set, the record is FAIL, not PASS.  In
    [runExperiment] the tuple assignment stores the flag in [expRes.Pass]
    and then overwrites the whole of [expRes] with the returned result, so
    the verdict follows the field and never the flag.  The note is that of
    the returned result in both cases. *)
Theorem run_verdict_drops_returned_flag :
  scripted.run [scripted.e12] (Some (scripted.sysCfg 1)) scripted.syConfig
    (scripted.start [flipped.flagFailsResultPasses "note"])
  = main.Done [(flipped.flagFailsResultPasses "note").1.2]
      {| main.world := {| scripted.script := []; scripted.ran := [scripted.e12] |};
         main.written :=
           [store.line (store.recordOf scripted.e12 store.PASS "note")] |}
  /\ scripted.run [scripted.e12] (Some (scripted.sysCfg 1)) scripted.syConfig
       (scripted.start [flipped.flagPassesResultFails "note"])
     = main.Done [(flipped.flagPassesResultFails "note").1.2]
         {| main.world := {| scripted.script := []; scripted.ran := [scripted.e12] |};
            main.written :=
              [store.line (store.recordOf scripted.e12 store.FAIL "note")] |}.
Proof. split; reflexivity. Qed.
